(** * The playlist controller of rpi-video-player (static/js/main.js)

    A shallow embedding of the browser script: the two script variables
    [currentPlaylist] and [currentlyPlayingIndex], the page elements the
    script writes, and the requests it has in flight.  Every [async]
    function is cut at its [await]: the part that runs when the function is
    called keeps the source's name, the part that runs when the response
    arrives is named [_resume]. *)

From stdpp Require Import base list strings pretty.

(** ** Data exchanged with the remote service *)

Record MediaEntry := { name : string; filename : string }.

(** [currentIndex] is a number or [null] ([None]). *)
Record PlaybackStatus := {
  isPlaying : bool;
  currentVideo : option MediaEntry;
  currentIndex : option Z
}.

(** The [{message, filename, error}] objects; an absent field is [undefined]. *)
Record Result := {
  message : option string;
  r_filename : option string;
  error : option string
}.

Inductive Json :=
| JVideos (videos : list MediaEntry)
| JStatus (status : PlaybackStatus)
| JResult (result : Result).

(** What [response.json()] gives: a value, or a thrown [SyntaxError]. *)
Inductive Body :=
| Parsed (j : Json)
| SyntaxError (msg : string).

(** What [fetch] gives: a rejected promise, or a response with its status. *)
Inductive Response :=
| NetworkError (msg : string)
| Http (status : nat) (body : Body).

Definition ok (status : nat) : bool :=
  (200 <=? status)%nat && (status <=? 299)%nat.

Definition File := string.

Inductive Command := play | pause | stop | next | previous.

Inductive Request :=
| GetVideos
| PostUpload (video : File)
| DeleteVideo (fname : string)
| PostReorder (playlist : list (option string))
| PostPlayback (command : Command) (body : option string)
| GetStatus.

(** ** The page *)

Record Element := { textContent : string; className : string }.

(** An [<li>] of the playlist: its text, [dataset.filename],
    [dataset.index], whether it carries the class [playing], and whether
    [makeSortable] made it draggable. *)
Record Li := {
  li_text : string;
  dataset_filename : option string;
  dataset_index : option nat;
  class_playing : bool;
  draggable : bool
}.

Record Document := {
  doc_playlist : list Li;
  doc_playbackStatus : Element;
  doc_currentVideo : Element;
  doc_uploadStatus : Element;
  doc_videoFile : option (list File)
}.

Record State := {
  currentPlaylist : list MediaEntry;
  currentlyPlayingIndex : option Z;
  playlistElement : list Li;
  playbackStatusElement : Element;
  currentVideoElement : Element;
  uploadStatus : Element;
  videoFile_files : option (list File);
  inflight : list Request;
  sent : list Request;
  alerts : list string
}.

Definition set_currentPlaylist (v : list MediaEntry) (st : State) : State :=
  {| currentPlaylist := v;
     currentlyPlayingIndex := currentlyPlayingIndex st;
     playlistElement := playlistElement st;
     playbackStatusElement := playbackStatusElement st;
     currentVideoElement := currentVideoElement st;
     uploadStatus := uploadStatus st;
     videoFile_files := videoFile_files st;
     inflight := inflight st; sent := sent st; alerts := alerts st |}.

Definition set_currentlyPlayingIndex (v : option Z) (st : State) : State :=
  {| currentPlaylist := currentPlaylist st;
     currentlyPlayingIndex := v;
     playlistElement := playlistElement st;
     playbackStatusElement := playbackStatusElement st;
     currentVideoElement := currentVideoElement st;
     uploadStatus := uploadStatus st;
     videoFile_files := videoFile_files st;
     inflight := inflight st; sent := sent st; alerts := alerts st |}.

Definition set_playlistElement (v : list Li) (st : State) : State :=
  {| currentPlaylist := currentPlaylist st;
     currentlyPlayingIndex := currentlyPlayingIndex st;
     playlistElement := v;
     playbackStatusElement := playbackStatusElement st;
     currentVideoElement := currentVideoElement st;
     uploadStatus := uploadStatus st;
     videoFile_files := videoFile_files st;
     inflight := inflight st; sent := sent st; alerts := alerts st |}.

Definition set_playbackStatusElement (text cls : string) (st : State) : State :=
  {| currentPlaylist := currentPlaylist st;
     currentlyPlayingIndex := currentlyPlayingIndex st;
     playlistElement := playlistElement st;
     playbackStatusElement := {| textContent := text; className := cls |};
     currentVideoElement := currentVideoElement st;
     uploadStatus := uploadStatus st;
     videoFile_files := videoFile_files st;
     inflight := inflight st; sent := sent st; alerts := alerts st |}.

(** Only the text of [currentVideoElement] is ever written. *)
Definition set_currentVideoText (text : string) (st : State) : State :=
  {| currentPlaylist := currentPlaylist st;
     currentlyPlayingIndex := currentlyPlayingIndex st;
     playlistElement := playlistElement st;
     playbackStatusElement := playbackStatusElement st;
     currentVideoElement :=
       {| textContent := text; className := className (currentVideoElement st) |};
     uploadStatus := uploadStatus st;
     videoFile_files := videoFile_files st;
     inflight := inflight st; sent := sent st; alerts := alerts st |}.

Definition set_uploadStatus (text cls : string) (st : State) : State :=
  {| currentPlaylist := currentPlaylist st;
     currentlyPlayingIndex := currentlyPlayingIndex st;
     playlistElement := playlistElement st;
     playbackStatusElement := playbackStatusElement st;
     currentVideoElement := currentVideoElement st;
     uploadStatus := {| textContent := text; className := cls |};
     videoFile_files := videoFile_files st;
     inflight := inflight st; sent := sent st; alerts := alerts st |}.

Definition set_videoFile_files (v : option (list File)) (st : State) : State :=
  {| currentPlaylist := currentPlaylist st;
     currentlyPlayingIndex := currentlyPlayingIndex st;
     playlistElement := playlistElement st;
     playbackStatusElement := playbackStatusElement st;
     currentVideoElement := currentVideoElement st;
     uploadStatus := uploadStatus st;
     videoFile_files := v;
     inflight := inflight st; sent := sent st; alerts := alerts st |}.

Definition set_inflight (v : list Request) (st : State) : State :=
  {| currentPlaylist := currentPlaylist st;
     currentlyPlayingIndex := currentlyPlayingIndex st;
     playlistElement := playlistElement st;
     playbackStatusElement := playbackStatusElement st;
     currentVideoElement := currentVideoElement st;
     uploadStatus := uploadStatus st;
     videoFile_files := videoFile_files st;
     inflight := v; sent := sent st; alerts := alerts st |}.

(** [fetch(...)] up to its [await]: the request leaves and is in flight. *)
Definition fetch (req : Request) (st : State) : State :=
  {| currentPlaylist := currentPlaylist st;
     currentlyPlayingIndex := currentlyPlayingIndex st;
     playlistElement := playlistElement st;
     playbackStatusElement := playbackStatusElement st;
     currentVideoElement := currentVideoElement st;
     uploadStatus := uploadStatus st;
     videoFile_files := videoFile_files st;
     inflight := inflight st ++ [req];
     sent := sent st ++ [req];
     alerts := alerts st |}.

Definition alert (msg : string) (st : State) : State :=
  {| currentPlaylist := currentPlaylist st;
     currentlyPlayingIndex := currentlyPlayingIndex st;
     playlistElement := playlistElement st;
     playbackStatusElement := playbackStatusElement st;
     currentVideoElement := currentVideoElement st;
     uploadStatus := uploadStatus st;
     videoFile_files := videoFile_files st;
     inflight := inflight st; sent := sent st;
     alerts := alerts st ++ [msg] |}.

(** ** JavaScript helpers *)

(** [hay.includes(needle)] *)
Definition includes (needle : string) : string -> bool :=
  fix go (hay : string) : bool :=
    String.prefix needle hay
    || match hay with
       | EmptyString => false
       | String _ rest => go rest
       end.

(** A template literal prints [undefined] for an absent field. *)
Definition template (v : option string) : string := default "undefined" v.

(** [v || fallback] on a string that may be absent: [undefined] and the
    empty string are falsy. *)
Definition or_else (v : option string) (fallback : string) : string :=
  match v with
  | Some s => if String.eqb s EmptyString then fallback else s
  | None => fallback
  end.

(** [index === currentlyPlayingIndex], [index] a [forEach] position. *)
Definition strict_eq_index (index : nat) (cur : option Z) : bool :=
  match cur with
  | Some z => Z.eqb (Z.of_nat index) z
  | None => false
  end.

(** [video.filename === filename], [filename] possibly [undefined]. *)
Definition strict_eq_filename (fname : option string) (video : MediaEntry) : bool :=
  match fname with
  | Some f => String.eqb (filename video) f
  | None => false
  end.

(** [.filter(Boolean)] on the result of [.map(... find ...)]. *)
Fixpoint filter_Boolean {A} (l : list (option A)) : list A :=
  match l with
  | [] => []
  | Some x :: l' => x :: filter_Boolean l'
  | None :: l' => filter_Boolean l'
  end.

(** ** Playlist management *)

Definition emptyLi : Li :=
  {| li_text := "Playlist is empty. Upload some videos!";
     dataset_filename := None; dataset_index := None;
     class_playing := false; draggable := false |}.

Definition errorLi : Li :=
  {| li_text := "Error loading playlist.";
     dataset_filename := None; dataset_index := None;
     class_playing := false; draggable := false |}.

Definition makeSortable (lis : list Li) : list Li :=
  map (fun item =>
         {| li_text := li_text item;
            dataset_filename := dataset_filename item;
            dataset_index := dataset_index item;
            class_playing := class_playing item;
            draggable := true |}) lis.

Definition listItem (st : State) (index : nat) (video : MediaEntry) : Li :=
  {| li_text := name video;
     dataset_filename := Some (filename video);
     dataset_index := Some index;
     class_playing :=
       strict_eq_index index (currentlyPlayingIndex st)
       && includes "Playing" (textContent (playbackStatusElement st));
     draggable := false |}.

Definition renderPlaylist (st : State) : State :=
  let placeholder :=
    if (length (currentPlaylist st) =? 0)%nat then [emptyLi] else [] in
  set_playlistElement
    (makeSortable (placeholder ++ imap (listItem st) (currentPlaylist st))) st.

Definition fetchPlaylist (st : State) : State := fetch GetVideos st.

Definition fetchPlaylist_resume (resp : Response) (st : State) : option State :=
  match resp with
  | NetworkError _ => Some (set_playlistElement [errorLi] st)
  | Http status body =>
      if ok status then
        match body with
        | Parsed (JVideos videos) =>
            Some (renderPlaylist (set_currentPlaylist videos st))
        | Parsed _ => None
        | SyntaxError _ => Some (set_playlistElement [errorLi] st)
        end
      else Some (set_playlistElement [errorLi] st)
  end.

(** ** Playback status update *)

Definition fetchPlaybackStatus (st : State) : State := fetch GetStatus st.

(** The [try] block once [status] is there: the [if (status.isPlaying)]
    statement, then the final [renderPlaylist()]. *)
Definition status_written (status : PlaybackStatus) (st : State) : State :=
  if isPlaying status then
    let st1 := set_playbackStatusElement "Status: Playing" "status-playing" st in
    match currentVideo status with
    | Some video =>
        set_currentlyPlayingIndex (currentIndex status)
          (set_currentVideoText ("Current Video: " +:+ name video) st1)
    | None =>
        set_currentlyPlayingIndex (Some (-1)%Z)
          (set_currentVideoText "Current Video: Unknown" st1)
    end
  else
    let st1 := set_playbackStatusElement "Status: Stopped/Idle" "status-idle" st in
    let st2 := set_currentVideoText "Current Video: None" st1 in
    match currentVideo status with
    | None => st2
    | Some video =>
        if negb (String.eqb (name video) "Black Screen") then st2
        else set_currentVideoText "Current Video: Black Screen" st2
    end.

Definition fetchPlaybackStatus_success (status : PlaybackStatus) (st : State) : State :=
  renderPlaylist (status_written status st).

(** The [catch] block. *)
Definition fetchPlaybackStatus_failure (st : State) : State :=
  renderPlaylist
    (set_currentVideoText "Current Video: Unknown"
       (set_playbackStatusElement "Status: Error fetching status" "status-error" st)).

Definition fetchPlaybackStatus_resume (resp : Response) (st : State) : option State :=
  match resp with
  | NetworkError _ => Some (fetchPlaybackStatus_failure st)
  | Http status body =>
      if ok status then
        match body with
        | Parsed (JStatus s) => Some (fetchPlaybackStatus_success s st)
        | Parsed _ => None
        | SyntaxError _ => Some (fetchPlaybackStatus_failure st)
        end
      else Some (fetchPlaybackStatus_failure st)
  end.

(** ** Reordering *)

Definition updatePlaylistOrder (st : State) : State :=
  let newOrderedFilenames := map dataset_filename (playlistElement st) in
  if negb (length newOrderedFilenames =? length (currentPlaylist st))%nat
  then fetchPlaylist st
  else fetch (PostReorder newOrderedFilenames) st.

(** [currentPlaylist.find(video => video.filename === filename)] *)
Definition find_video (items : list MediaEntry) (fname : option string)
    : option MediaEntry :=
  List.find (strict_eq_filename fname) items.

Definition newPlaylist (newOrderedFilenames : list (option string))
    (st : State) : list (option MediaEntry) :=
  map (find_video (currentPlaylist st)) newOrderedFilenames.

Definition updatePlaylistOrder_success
    (newOrderedFilenames : list (option string)) (st : State) : State :=
  renderPlaylist
    (fetchPlaybackStatus
       (set_currentPlaylist
          (filter_Boolean (newPlaylist newOrderedFilenames st)) st)).

Definition updatePlaylistOrder_resume (newOrderedFilenames : list (option string))
    (resp : Response) (st : State) : option State :=
  match resp with
  | NetworkError _ => Some (fetchPlaylist st)
  | Http status body =>
      if ok status then
        match body with
        | Parsed (JResult _) =>
            Some (updatePlaylistOrder_success newOrderedFilenames st)
        | Parsed _ => None
        | SyntaxError _ => Some (fetchPlaylist st)
        end
      else Some (fetchPlaylist st)
  end.

(** ** Video upload *)

Definition uploadForm_submit (st : State) : State :=
  match videoFile_files st with
  | None | Some [] =>
      set_uploadStatus "Please select a video file." "status-error" st
  | Some (file :: _) =>
      fetch (PostUpload file)
        (set_uploadStatus "Uploading..." "status-pending" st)
  end.

Definition uploadForm_submit_resume (resp : Response) (st : State) : option State :=
  let failed :=
    set_uploadStatus "Upload failed. See console for details." "status-error" st in
  match resp with
  | NetworkError _ => Some failed
  | Http status (SyntaxError _) => Some failed
  | Http status (Parsed (JResult result)) =>
      if ok status then
        Some (fetchPlaylist
                (set_videoFile_files (Some [])
                   (set_uploadStatus
                      ("Success: " +:+ template (message result) +:+ " ("
                         +:+ template (r_filename result) +:+ ")")
                      "status-success" st)))
      else
        Some (set_uploadStatus
                ("Error: " +:+ or_else (error result) "Upload failed")
                "status-error" st)
  | Http _ (Parsed _) => None
  end.

(** ** Video deletion *)

Definition deleteVideo (fname : string) (confirmed : bool) (st : State) : State :=
  if confirmed then fetch (DeleteVideo fname) st else st.

Definition deleteVideo_resume (resp : Response) (st : State) : option State :=
  let failed := alert "Failed to delete video. See console." st in
  match resp with
  | NetworkError _ => Some failed
  | Http status (SyntaxError _) => Some failed
  | Http status (Parsed (JResult result)) =>
      if ok status then Some (fetchPlaybackStatus (fetchPlaylist st))
      else Some (alert ("Error deleting video: " +:+ template (error result)) st)
  | Http _ (Parsed _) => None
  end.

(** ** Playback controls *)

Definition sendPlaybackCommand (command : Command) (fname : option string)
    (st : State) : State :=
  let body :=
    match fname with
    | Some f => if String.eqb f EmptyString then None else Some f
    | None => None
    end in
  fetch (PostPlayback command body) st.

Definition sendPlaybackCommand_resume (resp : Response) (st : State) : option State :=
  let caught msg := set_playbackStatusElement ("Error: " +:+ msg) "status-error" st in
  match resp with
  | NetworkError msg => Some (caught msg)
  | Http status body =>
      if ok status then
        match body with
        | Parsed (JResult _) => Some (fetchPlaybackStatus st)
        | Parsed _ => None
        | SyntaxError msg => Some (caught msg)
        end
      else
        match body with
        | Parsed (JResult errorResult) =>
            Some (caught ("HTTP error! status: " +:+ pretty status
                            +:+ ", message: " +:+ template (error errorResult)))
        | Parsed _ => None
        | SyntaxError _ =>
            Some (caught ("HTTP error! status: " +:+ pretty status
                            +:+ ", message: Unknown error"))
        end
  end.

Definition playVideo (fname : option string) (st : State) : State :=
  sendPlaybackCommand play fname st.

(** ** The page as a transition system *)

(** The script's top level, run on the loaded page. *)
Definition DOMContentLoaded (page : Document) : State :=
  fetchPlaybackStatus
    (fetchPlaylist
       {| currentPlaylist := [];
          currentlyPlayingIndex := Some (-1)%Z;
          playlistElement := doc_playlist page;
          playbackStatusElement := doc_playbackStatus page;
          currentVideoElement := doc_currentVideo page;
          uploadStatus := doc_uploadStatus page;
          videoFile_files := doc_videoFile page;
          inflight := []; sent := []; alerts := [] |}).

(** What can happen next: the timer fires, the user acts, or the response
    to the [i]-th request in flight arrives.  A drag gesture is taken as a
    whole: the dragged [<li>] at position [i] ends up at position [j] and
    [dragend] runs [updatePlaylistOrder]. *)
Inductive Event :=
| Tick
| DragDrop (i j : nat)
| ChooseFiles (files : list File)
| Submit
| ClickDelete (i : nat) (confirmed : bool)
| ClickItem (i : nat)
| ClickButton (command : Command)
| Deliver (i : nat) (resp : Response).

Definition move {A} (i j : nat) (l : list A) : list A :=
  match l !! i with
  | Some x => take j (delete i l) ++ x :: drop j (delete i l)
  | None => l
  end.

(** The continuation waiting for the response to [req]. *)
Definition resume (req : Request) (resp : Response) (st : State) : option State :=
  match req with
  | GetVideos => fetchPlaylist_resume resp st
  | PostUpload _ => uploadForm_submit_resume resp st
  | DeleteVideo _ => deleteVideo_resume resp st
  | PostReorder newOrderedFilenames =>
      updatePlaylistOrder_resume newOrderedFilenames resp st
  | PostPlayback _ _ => sendPlaybackCommand_resume resp st
  | GetStatus => fetchPlaybackStatus_resume resp st
  end.

(** [None]: the event cannot happen in this state (no such element, no such
    request), or the response is not one of the service's contract. *)
Definition step (ev : Event) (st : State) : option State :=
  match ev with
  | Tick => Some (fetchPlaybackStatus st)
  | DragDrop i j =>
      match playlistElement st !! i with
      | Some item =>
          if draggable item && (j <? length (playlistElement st))%nat
          then Some (updatePlaylistOrder
                       (set_playlistElement (move i j (playlistElement st)) st))
          else None
      | None => None
      end
  | ChooseFiles files => Some (set_videoFile_files (Some files) st)
  | Submit => Some (uploadForm_submit st)
  | ClickDelete i confirmed =>
      match playlistElement st !! i with
      | Some {| dataset_filename := Some fname |} =>
          Some (deleteVideo fname confirmed st)
      | _ => None
      end
  | ClickItem i =>
      match playlistElement st !! i with
      | Some {| dataset_filename := Some fname |} =>
          Some (playVideo (Some fname) st)
      | _ => None
      end
  | ClickButton play => Some (playVideo None st)
  | ClickButton command => Some (sendPlaybackCommand command None st)
  | Deliver i resp =>
      match inflight st !! i with
      | Some req => resume req resp (set_inflight (delete i (inflight st)) st)
      | None => None
      end
  end.

Fixpoint run (evs : list Event) (st : State) : option State :=
  match evs with
  | [] => Some st
  | ev :: evs' =>
      match step ev st with
      | Some st' => run evs' st'
      | None => None
      end
  end.

Definition emptyElement : Element :=
  {| textContent := EmptyString; className := EmptyString |}.

(** A page whose elements are still empty. *)
Definition blankPage : Document :=
  {| doc_playlist := [];
     doc_playbackStatus := emptyElement;
     doc_currentVideo := emptyElement;
     doc_uploadStatus := emptyElement;
     doc_videoFile := Some [] |}.

(** ** Vocabulary of the specification *)

(** [playingIndex] is "none": the initial [-1], or a [null] from the service. *)
Definition playing_none (i : option Z) : Prop := i = Some (-1)%Z \/ i = None.

(** [i] is a position of [items]. *)
Definition valid_index (i : option Z) (items : list MediaEntry) : bool :=
  match i with
  | Some z => (0 <=? z)%Z && (z <? Z.of_nat (length items))%Z
  | None => false
  end.

(** A request of [fetchPlaylist], [fetchPlaybackStatus] or
    [updatePlaylistOrder] that ends in the [catch] block: [fetch] rejected,
    the status is not a success, or the body does not parse. *)
Definition request_failed (resp : Response) : bool :=
  match resp with
  | NetworkError _ => true
  | Http status (SyntaxError _) => true
  | Http status (Parsed _) => negb (ok status)
  end.



(** The indices that the successful status polls among [evs] reported
    while playing with a current video. *)
Fixpoint reported (evs : list Event) : list (option Z) :=
  match evs with
  | [] => []
  | Deliver _ (Http code (Parsed (JStatus s))) :: evs' =>
      match ok code && isPlaying s, currentVideo s with
      | true, Some _ => currentIndex s :: reported evs'
      | _, _ => reported evs'
      end
  | _ :: evs' => reported evs'
  end.

(** Entries and responses used in the examples. *)
Definition entryA : MediaEntry := {| name := "A"; filename := "a.mp4" |}.
Definition entryB : MediaEntry := {| name := "B"; filename := "b.mp4" |}.
Definition entryC : MediaEntry := {| name := "C"; filename := "c.mp4" |}.
Definition entryD : MediaEntry := {| name := "D"; filename := "d.mp4" |}.

(** The sentinel entry; only its name matters. *)
Definition blackScreen : MediaEntry :=
  {| name := "Black Screen"; filename := "black.png" |}.

Definition okVideos (videos : list MediaEntry) : Response :=
  Http 200 (Parsed (JVideos videos)).
Definition okStatus (playing : bool) (video : option MediaEntry)
    (index : option Z) : Response :=
  Http 200 (Parsed (JStatus {| isPlaying := playing; currentVideo := video;
                               currentIndex := index |})).
Definition okMessage (msg : string) : Response :=
  Http 200 (Parsed (JResult {| message := Some msg; r_filename := None;
                               error := None |})).
Definition errorBody (code : nat) (reason : string) : Response :=
  Http code (Parsed (JResult {| message := None; r_filename := None;
                                error := Some reason |})).

Definition loaded : State := DOMContentLoaded blankPage.

(** Runs of the page used in the examples.  The answer to the first status
    poll overtakes the answer to the playlist fetch: *)
Definition status_first : list Event :=
  [Deliver 1 (okStatus true (Some entryC) (Some 2%Z))].

(** The local list is [A] while the service plays B at position 1: *)
Definition stale_list : list Event :=
  [Deliver 0 (okVideos [entryA]);
   Deliver 0 (okStatus true (Some entryB) (Some 1%Z))].

(** A plays at position 0 of [A; B]; the user drags A behind B and the
    reorder is confirmed: *)
Definition drag_while_playing : list Event :=
  [Deliver 0 (okVideos [entryA; entryB]);
   Deliver 0 (okStatus true (Some entryA) (Some 0%Z));
   DragDrop 0 1;
   Deliver 0 (okMessage "Playlist reordered")].

(** The user uploads d.mp4 and, while the refresh of the playlist is under
    way, drags B before A; the refresh then answers [refreshed]: *)
Definition upload_then_drag (refreshed : list MediaEntry) : list Event :=
  [Deliver 0 (okVideos [entryA; entryB]);
   Deliver 0 (okStatus false None None);
   ChooseFiles ["d.mp4"]; Submit; Deliver 0 (okMessage "Uploaded");
   DragDrop 0 1;
   Deliver 0 (okVideos refreshed)].

(** ... and the reorder is confirmed after that. *)
Definition upload_then_drag_confirmed (refreshed : list MediaEntry) : list Event :=
  upload_then_drag refreshed ++ [Deliver 0 (okMessage "Playlist reordered")].

(** An upload of notes.txt that the service refuses with [reason]: *)
Definition refused_upload (reason : string) : list Event :=
  [ChooseFiles ["notes.txt"]; Submit; Deliver 2 (errorBody 415 reason)].

(** ... and one that it refuses with a body that has no [error] field. *)
Definition refused_without_reason : list Event :=
  [ChooseFiles ["notes.txt"]; Submit;
   Deliver 2 (Http 415 (Parsed (JResult {| message := None; r_filename := None;
                                           error := None |})))].

(** The upload status surfaces [reason] as an error: it reads "Error: "
    followed by the reason, with class [status-error]. *)
Definition surfaces_reason (reason : string) (status : Element) : Prop :=
  status = {| textContent := "Error: " +:+ reason; className := "status-error" |}.

(** ** More vocabulary *)

(** What [makeSortable] does to one [<li>]. *)
Definition sortable (item : Li) : Li :=
  {| li_text := li_text item;
     dataset_filename := dataset_filename item;
     dataset_index := dataset_index item;
     class_playing := class_playing item;
     draggable := true |}.


(** The [dataset.filename] values of the rows that [renderPlaylist] builds
    for [items]: the placeholder row has none. *)
Definition rendered_names (items : list MediaEntry) : list (option string) :=
  match items with
  | [] => [None]
  | _ :: _ => map (Some ∘ filename) items
  end.

(** An upload or a delete that does not end in its success branch: [fetch]
    rejected, the body does not parse (it is read before the status is
    looked at), or the status is not a success. *)
Definition reply_failed (resp : Response) : bool :=
  match resp with
  | NetworkError _ => true
  | Http _ (SyntaxError _) => true
  | Http code (Parsed (JResult _)) => negb (ok code)
  | Http _ (Parsed _) => false
  end.

(** The handlers other than the playlist fetch and the reorder leave the
    items alone. *)
Ltac items_kept :=
  repeat match goal with
         | H : Some _ = Some _ |- _ => injection H as <-
         | H : None = Some _ |- _ => discriminate H
         | H : context [match ?x with _ => _ end] |- _ => destruct x
         | |- context [match ?x with _ => _ end] => destruct x
         end;
  try reflexivity.

(** The handlers other than the status poll leave the playing index alone. *)
Ltac index_kept :=
  repeat match goal with
         | H : Some _ = Some _ |- _ => injection H as <-
         | H : None = Some _ |- _ => discriminate H
         | H : context [match ?x with _ => _ end] |- _ => destruct x
         | |- context [match ?x with _ => _ end] => destruct x
         end;
  try (left; reflexivity).

(** ** Rendering never touches the script variables *)

Section Frames.
Variable st : State.

Lemma renderPlaylist_currentPlaylist :
  currentPlaylist (renderPlaylist st) = currentPlaylist st.
Proof. reflexivity. Qed.

Lemma renderPlaylist_currentlyPlayingIndex :
  currentlyPlayingIndex (renderPlaylist st) = currentlyPlayingIndex st.
Proof. reflexivity. Qed.


End Frames.

(** ** Upload with no file selected *)

(** C10: submitting the upload form with no file selected (the file list is
    absent or empty) sends no request and changes neither the playlist nor
    the playing index: the handler writes "Please select a video file."
    with class status-error and returns. *)
Theorem submit_without_file_sends_nothing (st : State) :
  videoFile_files st = None \/ videoFile_files st = Some [] ->
  step Submit st
    = Some (set_uploadStatus "Please select a video file." "status-error" st)
  /\ forall st', step Submit st = Some st' ->
       uploadStatus st'
         = {| textContent := "Please select a video file.";
              className := "status-error" |}
       /\ sent st' = sent st
       /\ inflight st' = inflight st
       /\ currentPlaylist st' = currentPlaylist st
       /\ currentlyPlayingIndex st' = currentlyPlayingIndex st
       /\ playlistElement st' = playlistElement st.
Proof.
  intros Hfiles.
  assert (Hs : uploadForm_submit st
               = set_uploadStatus "Please select a video file." "status-error" st).
  { unfold uploadForm_submit. by destruct Hfiles as [-> | ->]. }
  split.
  - simpl. by rewrite Hs.
  - intros st' Hstep. simpl in Hstep. rewrite Hs in Hstep.
    by injection Hstep as <-.
Qed.

Lemma submit_without_file_sends_nothing_witness :
  step Submit loaded
    = Some (set_uploadStatus "Please select a video file." "status-error" loaded)
  /\ forall st', step Submit loaded = Some st' ->
       uploadStatus st'
         = {| textContent := "Please select a video file.";
              className := "status-error" |}
       /\ sent st' = sent loaded
       /\ inflight st' = inflight loaded
       /\ currentPlaylist st' = currentPlaylist loaded
       /\ currentlyPlayingIndex st' = currentlyPlayingIndex loaded
       /\ playlistElement st' = playlistElement loaded.
Proof.
  apply (submit_without_file_sends_nothing loaded).
  right. reflexivity.
Defined.

(** ** Failed status polls *)

Lemma failed_poll_resume resp st :
  request_failed resp = true ->
  fetchPlaybackStatus_resume resp st = Some (fetchPlaybackStatus_failure st).
Proof.
  destruct resp as [msg | status [j | msg]]; simpl; try done.
  - intros Hok. apply negb_true_iff in Hok. by rewrite Hok.
  - intros _. by destruct (ok status).
Qed.

(** C6: when a status poll fails (the fetch is rejected, the HTTP status is
    not a success, or the body does not parse), the handler shows
    "Status: Error fetching status" with class status-error and leaves the
    playing index and the items as they were. *)
Theorem failed_poll_keeps_state (i : nat) (resp : Response) (st : State) :
  inflight st !! i = Some GetStatus ->
  request_failed resp = true ->
  exists st',
    step (Deliver i resp) st = Some st'
    /\ playbackStatusElement st'
       = {| textContent := "Status: Error fetching status";
            className := "status-error" |}
    /\ currentlyPlayingIndex st' = currentlyPlayingIndex st
    /\ currentPlaylist st' = currentPlaylist st.
Proof.
  intros Hreq Hfail. eexists. split.
  - simpl. rewrite Hreq. simpl. apply failed_poll_resume, Hfail.
  - done.
Qed.

Lemma failed_poll_keeps_state_witness :
  exists st',
    step (Deliver 1 (Http 503 (Parsed (JResult
            {| message := None; r_filename := None;
               error := Some "unavailable" |})))) loaded = Some st'
    /\ playbackStatusElement st'
       = {| textContent := "Status: Error fetching status";
            className := "status-error" |}
    /\ currentlyPlayingIndex st' = currentlyPlayingIndex loaded
    /\ currentPlaylist st' = currentPlaylist loaded.
Proof.
  apply (failed_poll_keeps_state 1 _ loaded); reflexivity.
Defined.

(** ** Applying a status twice *)

(** C7: applying the same PlaybackStatus twice in a row gives the same
    state as applying it once (items, playing index and every element of
    the page). *)
Theorem status_application_idempotent (s : PlaybackStatus) (st : State) :
  fetchPlaybackStatus_success s (fetchPlaybackStatus_success s st)
  = fetchPlaybackStatus_success s st.
Proof.
  destruct s as [playing video index], st.
  unfold fetchPlaybackStatus_success, status_written; simpl.
  destruct playing, video as [v |]; simpl; try reflexivity.
  case_eq (negb (String.eqb (name v) "Black Screen")); intros Hname;
    simpl; rewrite ?Hname; reflexivity.
Qed.

(** ** The black screen sentinel *)




(** ** Failed uploads *)

Lemma or_else_nonempty (reason fallback : string) :
  reason <> EmptyString -> or_else (Some reason) fallback = reason.
Proof.
  intros Hne. unfold or_else.
  destruct (String.eqb_spec reason EmptyString); [contradiction | reflexivity].
Qed.

(** C8, as the code has it: when an upload is answered with a non-success
    status and a parseable body, nothing is sent and the items, the playing
    index and the rendered list are unchanged.  A non-empty reason in the
    body's error field is surfaced: the upload status reads "Error: "
    followed by that reason, with class status-error.  An empty reason is
    not surfaced: like an absent one it is shown as
    "Error: Upload failed". *)
Theorem failed_upload_surfaces_reason (i : nat) (file : File) (code : nat)
    (result : Result) (st : State) :
  inflight st !! i = Some (PostUpload file) ->
  ok code = false ->
  exists st',
    step (Deliver i (Http code (Parsed (JResult result)))) st = Some st'
    /\ (forall reason,
          error result = Some reason -> reason <> EmptyString ->
          surfaces_reason reason (uploadStatus st'))
    /\ (error result = None \/ error result = Some EmptyString ->
        surfaces_reason "Upload failed" (uploadStatus st'))
    /\ currentPlaylist st' = currentPlaylist st
    /\ currentlyPlayingIndex st' = currentlyPlayingIndex st
    /\ playlistElement st' = playlistElement st
    /\ sent st' = sent st
    /\ inflight st' = delete i (inflight st).
Proof.
  intros Hreq Hcode. eexists. split.
  - simpl. rewrite Hreq. simpl. rewrite Hcode. reflexivity.
  - unfold surfaces_reason. simpl. split; [| split; [| done]].
    + intros reason Herror Hne. by rewrite Herror, (or_else_nonempty _ _ Hne).
    + intros [Herror | Herror]; by rewrite Herror.
Qed.

Lemma failed_upload_surfaces_reason_witness :
  exists st',
    step (Deliver 2 (errorBody 415 "unsupported format"))
         (uploadForm_submit (set_videoFile_files (Some ["notes.txt"]) loaded))
    = Some st'
    /\ surfaces_reason "unsupported format" (uploadStatus st')
    /\ currentPlaylist st' = []
    /\ currentlyPlayingIndex st' = Some (-1)%Z
    /\ playlistElement st' = []
    /\ sent st' = [GetVideos; GetStatus; PostUpload "notes.txt"]
    /\ inflight st' = [GetVideos; GetStatus].
Proof.
  destruct (failed_upload_surfaces_reason 2 "notes.txt" 415
              {| message := None; r_filename := None;
                 error := Some "unsupported format" |}
              (uploadForm_submit (set_videoFile_files (Some ["notes.txt"]) loaded)))
    as (st' & Hstep & Hreason & _ & Hframe); [reflexivity | reflexivity |].
  exists st'. split; [exact Hstep |]. split; [| exact Hframe].
  apply Hreason; [reflexivity | discriminate].
Defined.

(** C8 as stated fails at the empty reason: when the service refuses an
    upload with an error field that is the empty string, the reason is not
    what the upload status surfaces.  The status reads
    "Error: Upload failed", exactly as for a body without any error
    field. *)
Lemma empty_reason_is_not_surfaced :
  (uploadStatus <$> run (refused_upload EmptyString) loaded)
    = Some {| textContent := "Error: Upload failed"; className := "status-error" |}
  /\ ~ surfaces_reason EmptyString
        {| textContent := "Error: Upload failed"; className := "status-error" |}
  /\ (uploadStatus <$> run refused_without_reason loaded)
     = (uploadStatus <$> run (refused_upload EmptyString) loaded).
Proof.
  split; [vm_compute; reflexivity |].
  split; [| vm_compute; reflexivity].
  unfold surfaces_reason. discriminate.
Qed.

(** ** The guard of a reorder *)




(** ** Mapping a candidate order back to the known entries *)

Section Resolve.
Variable items : list MediaEntry.

Lemma strict_eq_filename_true fname video :
  strict_eq_filename fname video = true <-> fname = Some (filename video).
Proof.
  destruct fname as [f |]; simpl; [| split; discriminate].
  rewrite String.eqb_eq. split; [by intros <- | by intros [= <-]].
Qed.

Lemma resolve_Some fname video :
  find_video items fname = Some video ->
  video ∈ items /\ fname = Some (filename video).
Proof.
  intros Hfind. apply List.find_some in Hfind as [Hin Heq].
  split; [by apply list_elem_of_In | by apply strict_eq_filename_true].
Qed.

(** A name of a known entry resolves, to an entry of that name. *)
Lemma resolve_known video :
  video ∈ items ->
  exists video', find_video items (Some (filename video)) = Some video'
                 /\ filename video' = filename video.
Proof.
  intros Hin.
  destruct (find_video items (Some (filename video))) as [v' |] eqn:Hfind.
  - exists v'. split; [done |].
    apply resolve_Some in Hfind as [_ [= ->]]. done.
  - apply list_elem_of_In in Hin.
    pose proof (List.find_none _ _ Hfind _ Hin) as Hno.
    simpl in Hno. by rewrite String.eqb_refl in Hno.
Qed.

(** The names kept are a sub-sequence of the candidate, in its order. *)
Lemma resolved_names_sublist (order : list (option string)) :
  map (Some ∘ filename) (filter_Boolean (map (find_video items) order))
    `sublist_of` order.
Proof.
  induction order as [| fname order IH]; simpl; [constructor |].
  destruct (find_video items fname) as [v |] eqn:Hfind; simpl.
  - apply resolve_Some in Hfind as [_ ->]. by constructor.
  - by constructor.
Qed.

Lemma resolved_entries_known (order : list (option string)) video :
  video ∈ filter_Boolean (map (find_video items) order) -> video ∈ items.
Proof.
  induction order as [| fname order IH]; simpl; [by intros ?%elem_of_nil |].
  destruct (find_video items fname) as [v |] eqn:Hfind; [| done].
  intros [-> | Hin]%elem_of_cons; [| by apply IH].
  by apply resolve_Some in Hfind as [? _].
Qed.

(** When every candidate name is the name of a known entry, nothing is
    dropped: the names of the result are the candidate. *)
Lemma resolved_names_all (order : list (option string)) :
  (forall fname, fname ∈ order -> fname ∈ map (Some ∘ filename) items) ->
  map (Some ∘ filename) (filter_Boolean (map (find_video items) order)) = order.
Proof.
  induction order as [| fname order IH]; intros Hknown; simpl; [done |].
  assert (Hin : fname ∈ map (Some ∘ filename) items)
    by (apply Hknown; left).
  apply list_elem_of_In, in_map_iff in Hin as (v & <- & Hv).
  apply list_elem_of_In, resolve_known in Hv as (v' & Hfind & Hname).
  simpl. rewrite Hfind. simpl. rewrite Hname. f_equal.
  apply IH. intros f Hf. apply Hknown. by right.
Qed.

Hypothesis unique_filenames : NoDup (map filename items).

(** With unique filenames, a known entry resolves to itself. *)
Lemma resolve_self (l : list MediaEntry) video :
  NoDup (map filename l) -> video ∈ l ->
  find_video l (Some (filename video)) = Some video.
Proof.
  unfold find_video.
  induction l as [| v l IH]; intros Hnd Hin; [by apply elem_of_nil in Hin |].
  simpl in *. apply NoDup_cons in Hnd as [Hfresh Hnd].
  destruct (String.eqb_spec (filename v) (filename video)) as [Heq | Hne].
  - apply elem_of_cons in Hin as [-> | Hin]; [done |].
    exfalso. apply Hfresh. rewrite Heq.
    apply list_elem_of_In, in_map, list_elem_of_In, Hin.
  - apply elem_of_cons in Hin as [-> | Hin]; [done | by apply IH].
Qed.

Lemma resolve_items_identity :
  filter_Boolean (map (find_video items) (map (Some ∘ filename) items)) = items.
Proof.
  assert (Hall : forall l, (forall v, v ∈ l -> v ∈ items) ->
            filter_Boolean (map (find_video items) (map (Some ∘ filename) l)) = l).
  { induction l as [| v l IH]; intros Hsub; simpl; [done |].
    rewrite resolve_self by (done || apply Hsub; left).
    f_equal. apply IH. intros w Hw. apply Hsub. by right. }
  by apply Hall.
Qed.

Lemma filter_Boolean_Permutation {A} (l1 l2 : list (option A)) :
  l1 ≡ₚ l2 -> filter_Boolean l1 ≡ₚ filter_Boolean l2.
Proof.
  induction 1 as [| [x |] l1 l2 _ IH | [x |] [y |] l | l1 l2 l3 _ IH1 _ IH2];
    simpl; try done.
  - by constructor.
  - constructor.
  - by etrans.
Qed.

(** With unique filenames, a permutation of the names gives a
    permutation of the entries. *)
Lemma resolved_Permutation (order : list (option string)) :
  order ≡ₚ map (Some ∘ filename) items ->
  filter_Boolean (map (find_video items) order) ≡ₚ items.
Proof.
  intros Hperm.
  etrans; [apply filter_Boolean_Permutation, Permutation_map, Hperm |].
  by rewrite resolve_items_identity.
Qed.
End Resolve.

(** ** A confirmed reorder *)

Lemma updatePlaylistOrder_resume_ok order code result st :
  ok code = true ->
  updatePlaylistOrder_resume order (Http code (Parsed (JResult result))) st
  = Some (updatePlaylistOrder_success order st).
Proof. intros Hok. simpl. by rewrite Hok. Qed.

Lemma updatePlaylistOrder_resume_failed order resp st :
  request_failed resp = true ->
  updatePlaylistOrder_resume order resp st = Some (fetchPlaylist st).
Proof.
  destruct resp as [msg | code [j | msg]]; simpl; try done.
  - intros Hok%negb_true_iff. by rewrite Hok.
  - intros _. by destruct (ok code).
Qed.

(** C3, as the code has it: when the reorder request for a permutation O'
    of the current filenames succeeds, the items become the known entries
    in the order O' (a permutation of the old items when filenames are
    unique), and a status poll is sent; the list is re-rendered at once,
    with the playing index it had before, and the index is taken from the
    poll's answer only when that answer arrives. *)
Theorem reorder_success_installs_order (i : nat) (order : list (option string))
    (code : nat) (result : Result) (st : State) :
  inflight st !! i = Some (PostReorder order) ->
  ok code = true ->
  order ≡ₚ map (Some ∘ filename) (currentPlaylist st) ->
  exists st',
    step (Deliver i (Http code (Parsed (JResult result)))) st = Some st'
    /\ map (Some ∘ filename) (currentPlaylist st') = order
    /\ (forall video, video ∈ currentPlaylist st' -> video ∈ currentPlaylist st)
    /\ (NoDup (map filename (currentPlaylist st)) ->
        currentPlaylist st' ≡ₚ currentPlaylist st)
    /\ inflight st' = delete i (inflight st) ++ [GetStatus]
    /\ currentlyPlayingIndex st' = currentlyPlayingIndex st
    /\ playlistElement st'
       = playlistElement (renderPlaylist (set_currentPlaylist (currentPlaylist st') st))
    /\ (forall s video,
          isPlaying s = true -> currentVideo s = Some video ->
          currentlyPlayingIndex (fetchPlaybackStatus_success s st') = currentIndex s
          /\ currentPlaylist (fetchPlaybackStatus_success s st') = currentPlaylist st').
Proof.
  intros Hreq Hok Hperm. eexists. split.
  { simpl. rewrite Hreq. simpl. by rewrite Hok. }
  simpl. split; [| split; [| split; [| split; [| split; [| split]]]]]; try done.
  - apply resolved_names_all. intros fname Hin. by rewrite <- Hperm.
  - apply resolved_entries_known.
  - intros Hnd. by apply resolved_Permutation.
  - intros s video Hplaying Hvideo.
    unfold fetchPlaybackStatus_success, status_written; simpl.
    by rewrite Hplaying, Hvideo.
Qed.

Lemma reorder_success_installs_order_witness :
  exists st',
    step (Deliver 0 (okMessage "Playlist reordered"))
         (fetch (PostReorder [Some "b.mp4"; Some "a.mp4"])
            (set_inflight [] (set_currentPlaylist [entryA; entryB] loaded)))
    = Some st'
    /\ map (Some ∘ filename) (currentPlaylist st') = [Some "b.mp4"; Some "a.mp4"].
Proof.
  destruct (reorder_success_installs_order 0 [Some "b.mp4"; Some "a.mp4"] 200
              {| message := Some "Playlist reordered"; r_filename := None;
                 error := None |}
              (fetch (PostReorder [Some "b.mp4"; Some "a.mp4"])
                 (set_inflight [] (set_currentPlaylist [entryA; entryB] loaded))))
    as (st' & Hstep & Hnames & _).
  - reflexivity.
  - reflexivity.
  - simpl. apply perm_swap.
  - exists st'. split; [exact Hstep | exact Hnames].
Defined.

(** C3 as stated fails on its last part: A is playing at position 0 of
    [A; B]; the user drags A behind B and the reorder is confirmed.  The
    list is re-rendered with the items [B; A] and the old index 0, so B
    carries the highlight, while the status poll that is to bring the new
    index is still in flight; the highlight moves to A only when the
    poll's answer (A, position 1) arrives. *)
Lemma reorder_rerenders_before_repoll_answer :
  (currentPlaylist <$> run drag_while_playing loaded) = Some [entryB; entryA]
  /\ (currentlyPlayingIndex <$> run drag_while_playing loaded) = Some (Some 0%Z)
  /\ (map class_playing ∘ playlistElement <$> run drag_while_playing loaded)
     = Some [true; false]
  /\ (inflight <$> run drag_while_playing loaded) = Some [GetStatus]
  /\ (currentlyPlayingIndex
        <$> run (drag_while_playing
                   ++ [Deliver 0 (okStatus true (Some entryA) (Some 1%Z))]) loaded)
     = Some (Some 1%Z)
  /\ (map class_playing ∘ playlistElement
        <$> run (drag_while_playing
                   ++ [Deliver 0 (okStatus true (Some entryA) (Some 1%Z))]) loaded)
     = Some [false; true].
Proof. vm_compute. done. Qed.

(** ** Recovery from a reorder that does not match *)

(** C4, as the code has it: a candidate whose length differs from the
    number of items is not sent and not applied, and a reorder whose
    request fails is not applied either: in both cases the items stay as
    they are and a full re-fetch is issued, whose answer replaces the items
    wholesale.  A confirmed reorder is applied without a re-fetch, also
    when its names differ from the items: the names that resolve are
    installed in the candidate's order and the others are dropped. *)
Theorem reorder_recovery (order : list (option string)) (st : State) :
  (length (playlistElement st) <> length (currentPlaylist st) ->
     updatePlaylistOrder st = fetchPlaylist st)
  /\ (forall resp, request_failed resp = true ->
        updatePlaylistOrder_resume order resp st = Some (fetchPlaylist st))
  /\ currentPlaylist (fetchPlaylist st) = currentPlaylist st
  /\ sent (fetchPlaylist st) = sent st ++ [GetVideos]
  /\ (forall code videos, ok code = true ->
        currentPlaylist
          <$> fetchPlaylist_resume (Http code (Parsed (JVideos videos))) st
        = Some videos)
  /\ (forall code result, ok code = true ->
        exists st',
          updatePlaylistOrder_resume order (Http code (Parsed (JResult result))) st
          = Some st'
          /\ currentPlaylist st' = filter_Boolean (newPlaylist order st)
          /\ map (Some ∘ filename) (currentPlaylist st') `sublist_of` order
          /\ (forall video, video ∈ currentPlaylist st' -> video ∈ currentPlaylist st)
          /\ sent st' = sent st ++ [GetStatus]).
Proof.
  split; [| split; [| split; [| split; [| split]]]].
  - intros Hlen. unfold updatePlaylistOrder. rewrite length_map.
    by destruct (Nat.eqb_spec (length (playlistElement st))
                              (length (currentPlaylist st))).
  - intros resp. apply updatePlaylistOrder_resume_failed.
  - reflexivity.
  - reflexivity.
  - intros code videos Hok. simpl. by rewrite Hok.
  - intros code result Hok. eexists. split.
    { by apply updatePlaylistOrder_resume_ok. }
    simpl. repeat split.
    + apply resolved_names_sublist.
    + apply resolved_entries_known.
Qed.

Lemma reorder_recovery_witness :
  updatePlaylistOrder (renderPlaylist loaded) = fetchPlaylist (renderPlaylist loaded)
  /\ updatePlaylistOrder_resume [Some "b.mp4"; Some "a.mp4"]
       (errorBody 500 "write failed") loaded
     = Some (fetchPlaylist loaded).
Proof.
  pose proof (reorder_recovery [Some "b.mp4"; Some "a.mp4"] (renderPlaylist loaded))
    as [Hguard _].
  pose proof (reorder_recovery [Some "b.mp4"; Some "a.mp4"] loaded)
    as (_ & Hfailed & _).
  split.
  - apply Hguard. simpl. discriminate.
  - apply Hfailed. reflexivity.
Defined.

(** C4 as stated fails: the user uploads d.mp4 and, while the refresh is
    under way, drags B before A; the refresh answers [A; B; D], then the
    reorder of [b.mp4; a.mp4] is confirmed.  The candidate's names differ
    from the items', yet no re-fetch is sent: the items become [B; A], the
    candidate merged with the local items, and D is lost. *)
Lemma reorder_mismatch_is_merged :
  (currentPlaylist <$> run (upload_then_drag [entryA; entryB; entryD]) loaded)
    = Some [entryA; entryB; entryD]
  /\ (inflight <$> run (upload_then_drag [entryA; entryB; entryD]) loaded)
     = Some [PostReorder [Some "b.mp4"; Some "a.mp4"]]
  /\ (currentPlaylist
        <$> run (upload_then_drag_confirmed [entryA; entryB; entryD]) loaded)
     = Some [entryB; entryA]
  /\ (inflight
        <$> run (upload_then_drag_confirmed [entryA; entryB; entryD]) loaded)
     = Some [GetStatus]
  /\ (sent <$> run (upload_then_drag_confirmed [entryA; entryB; entryD]) loaded)
     = Some [GetVideos; GetStatus; PostUpload "d.mp4"; GetVideos;
             PostReorder [Some "b.mp4"; Some "a.mp4"]; GetStatus].
Proof. vm_compute. done. Qed.

(** ** The playing index that a status poll stores *)

Lemma status_written_index (s : PlaybackStatus) (st : State) :
  currentlyPlayingIndex (status_written s st)
  = if isPlaying s then
      match currentVideo s with
      | Some _ => currentIndex s
      | None => Some (-1)%Z
      end
    else currentlyPlayingIndex st.
Proof.
  unfold status_written.
  destruct (isPlaying s), (currentVideo s) as [v |]; simpl; try reflexivity.
  by destruct (negb (String.eqb (name v) "Black Screen")).
Qed.

Lemma status_written_items (s : PlaybackStatus) (st : State) :
  currentPlaylist (status_written s st) = currentPlaylist st.
Proof.
  unfold status_written.
  destruct (isPlaying s), (currentVideo s) as [v |]; simpl; try reflexivity.
  by destruct (negb (String.eqb (name v) "Black Screen")).
Qed.

Lemma status_written_text (s : PlaybackStatus) (st : State) :
  textContent (playbackStatusElement (status_written s st))
  = if isPlaying s then "Status: Playing" else "Status: Stopped/Idle".
Proof.
  unfold status_written.
  destruct (isPlaying s), (currentVideo s) as [v |]; simpl; try reflexivity.
  by destruct (negb (String.eqb (name v) "Black Screen")).
Qed.

(** No position of [items] equals an index that is not valid for them. *)
Lemma strict_eq_index_invalid (items : list MediaEntry) (cur : option Z) (index : nat) :
  valid_index cur items = false ->
  index < length items ->
  strict_eq_index index cur = false.
Proof.
  destruct cur as [z |]; simpl; [| done].
  intros Hinvalid Hlt. apply Z.eqb_neq. intros <-.
  apply andb_false_iff in Hinvalid as [Hneg | Hbig].
  - apply Z.leb_gt in Hneg. lia.
  - apply Z.ltb_ge in Hbig. lia.
Qed.

(** What [renderPlaylist] highlights, item by item. *)
Lemma renderPlaylist_highlight (st : State) :
  (forall index video,
     currentPlaylist st !! index = Some video ->
     class_playing (listItem st index video) = false) ->
  Forall (fun item => class_playing item = false)
         (playlistElement (renderPlaylist st)).
Proof.
  intros Hitems. unfold renderPlaylist, makeSortable; simpl.
  apply List.Forall_map; simpl. apply Forall_app. split.
  - destruct (length (currentPlaylist st) =? 0)%nat; repeat constructor.
  - apply Forall_lookup_2. intros index item Hlookup.
    rewrite list_lookup_imap in Hlookup.
    destruct (currentPlaylist st !! index) as [video |] eqn:Hvideo;
      simpl in Hlookup; [| discriminate].
    injection Hlookup as <-. by apply Hitems.
Qed.

(** C2, as the code has it: when the reported status has a current video
    but its currentIndex is not a valid position of the local items, the
    status is applied as it is (the reported index is stored when
    isPlaying, the stored index is kept otherwise, the items are
    unchanged) and the re-rendered list highlights no item. *)
Theorem unresolved_index_highlights_nothing (s : PlaybackStatus)
    (video : MediaEntry) (st : State) :
  currentVideo s = Some video ->
  valid_index (currentIndex s) (currentPlaylist st) = false ->
  currentlyPlayingIndex (fetchPlaybackStatus_success s st)
    = (if isPlaying s then currentIndex s else currentlyPlayingIndex st)
  /\ currentPlaylist (fetchPlaybackStatus_success s st) = currentPlaylist st
  /\ Forall (fun item => class_playing item = false)
            (playlistElement (fetchPlaybackStatus_success s st)).
Proof.
  intros Hvideo Hinvalid.
  split; [| split].
  - unfold fetchPlaybackStatus_success.
    by rewrite renderPlaylist_currentlyPlayingIndex, status_written_index, Hvideo.
  - apply status_written_items.
  - apply renderPlaylist_highlight.
    intros index entry Hlookup. unfold listItem; simpl.
    rewrite status_written_index, status_written_text, Hvideo.
    rewrite status_written_items in Hlookup. apply lookup_lt_Some in Hlookup.
    destruct (isPlaying s).
    + by rewrite (strict_eq_index_invalid _ _ _ Hinvalid Hlookup).
    + apply andb_false_r.
Qed.

Lemma unresolved_index_highlights_nothing_witness :
  currentlyPlayingIndex
    (fetchPlaybackStatus_success
       {| isPlaying := true; currentVideo := Some entryB;
          currentIndex := Some 1%Z |}
       (set_currentPlaylist [entryA] loaded))
  = Some 1%Z
  /\ currentPlaylist
       (fetchPlaybackStatus_success
          {| isPlaying := true; currentVideo := Some entryB;
             currentIndex := Some 1%Z |}
          (set_currentPlaylist [entryA] loaded))
     = [entryA]
  /\ Forall (fun item => class_playing item = false)
       (playlistElement
          (fetchPlaybackStatus_success
             {| isPlaying := true; currentVideo := Some entryB;
                currentIndex := Some 1%Z |}
             (set_currentPlaylist [entryA] loaded))).
Proof.
  apply (unresolved_index_highlights_nothing
           {| isPlaying := true; currentVideo := Some entryB;
              currentIndex := Some 1%Z |}
           entryB (set_currentPlaylist [entryA] loaded));
    reflexivity.
Defined.

(** C2 as stated fails: the local list is [A] and the service reports that
    it plays B at position 1, which is no position of the local list; the
    playing index is then 1, not "none". *)
Lemma unresolved_index_is_stored :
  (currentPlaylist <$> run stale_list loaded) = Some [entryA]
  /\ (currentlyPlayingIndex <$> run stale_list loaded) = Some (Some 1%Z)
  /\ ~ playing_none (Some 1%Z)
  /\ valid_index (Some 1%Z) [entryA] = false.
Proof.
  split; [vm_compute; reflexivity |].
  split; [vm_compute; reflexivity |].
  split; [| reflexivity].
  intros [Hminus | Hnull]; discriminate.
Qed.

(** ** The playing index along a run *)

Lemma reported_cons (ev : Event) (evs : list Event) :
  reported (ev :: evs) = reported [ev] ++ reported evs.
Proof.
  destruct ev as [| | | | | | | i [msg | code [[videos | s | result] | msg]]];
    simpl; try reflexivity.
  destruct (ok code && isPlaying s), (currentVideo s); reflexivity.
Qed.

Lemma resume_index (req : Request) (resp : Response) (st st' : State) :
  resume req resp st = Some st' ->
  currentlyPlayingIndex st' = currentlyPlayingIndex st
  \/ currentlyPlayingIndex st' = Some (-1)%Z
  \/ exists i, currentlyPlayingIndex st' ∈ reported [Deliver i resp].
Proof.
  destruct req; simpl; intros Hresume;
    try (unfold fetchPlaylist_resume, uploadForm_submit_resume,
           deleteVideo_resume, updatePlaylistOrder_resume,
           sendPlaybackCommand_resume in Hresume;
         index_kept; fail).
  unfold fetchPlaybackStatus_resume in Hresume.
  destruct resp as [msg | code [[videos | s | result] | msg]];
    try (index_kept; fail).
  destruct (ok code) eqn:Hok; [| index_kept; fail].
  injection Hresume as <-. unfold fetchPlaybackStatus_success.
  rewrite renderPlaylist_currentlyPlayingIndex, status_written_index.
  cbn [reported andb].
  destruct (isPlaying s), (currentVideo s); auto.
  right; right. exists 0. apply list_elem_of_singleton. reflexivity.
Qed.

Lemma step_index (ev : Event) (st st' : State) :
  step ev st = Some st' ->
  currentlyPlayingIndex st' = currentlyPlayingIndex st
  \/ currentlyPlayingIndex st' = Some (-1)%Z
  \/ currentlyPlayingIndex st' ∈ reported [ev].
Proof.
  destruct ev as [| i j | files | | i confirmed | i | command | i resp];
    simpl; intros Hstep.
  - index_kept.
  - unfold updatePlaylistOrder in Hstep. index_kept.
  - index_kept.
  - unfold uploadForm_submit in Hstep. index_kept.
  - unfold deleteVideo in Hstep. index_kept.
  - index_kept.
  - index_kept.
  - destruct (inflight st !! i) as [req |]; [| discriminate].
    apply resume_index in Hstep as [Hkept | [Hminus | [k Hreported]]];
      [by left | by right; left | right; right; exact Hreported].
Qed.

Lemma run_index (evs : list Event) :
  forall st st', run evs st = Some st' ->
    currentlyPlayingIndex st' = currentlyPlayingIndex st
    \/ currentlyPlayingIndex st' = Some (-1)%Z
    \/ currentlyPlayingIndex st' ∈ reported evs.
Proof.
  induction evs as [| ev evs IH]; intros st st' Hrun; simpl in Hrun.
  - left. congruence.
  - destruct (step ev st) as [st1 |] eqn:Hstep; [| discriminate].
    rewrite reported_cons, elem_of_app.
    destruct (IH _ _ Hrun) as [Hkept | [Hminus | Hlater]]; [| tauto | tauto].
    rewrite Hkept.
    destruct (step_index _ _ _ Hstep) as [? | [? | ?]]; tauto.
Qed.

Lemma status_poll_succeeds (i code : nat) (s : PlaybackStatus) (st : State) :
  inflight st !! i = Some GetStatus ->
  ok code = true ->
  step (Deliver i (Http code (Parsed (JStatus s)))) st
  = Some (fetchPlaybackStatus_success s (set_inflight (delete i (inflight st)) st)).
Proof. intros Hreq Hok. simpl. rewrite Hreq. simpl. by rewrite Hok. Qed.

(** C1, as the code has it: in every state reached from the loaded page,
    the playing index is -1 or a currentIndex that a successful status
    poll of the run reported while playing a known video; a successful
    status poll stores the reported currentIndex as it is when isPlaying
    with a current video, -1 when isPlaying without one, and keeps the
    stored index otherwise, so the stored index is a valid position of the
    local items exactly when the service's is. *)
Theorem playing_index_is_reported (page : Document) (evs : list Event) (st : State) :
  run evs (DOMContentLoaded page) = Some st ->
  (currentlyPlayingIndex st = Some (-1)%Z
   \/ currentlyPlayingIndex st ∈ reported evs)
  /\ forall i code s,
       inflight st !! i = Some GetStatus -> ok code = true ->
       exists st',
         step (Deliver i (Http code (Parsed (JStatus s)))) st = Some st'
         /\ currentPlaylist st' = currentPlaylist st
         /\ currentlyPlayingIndex st'
            = (if isPlaying s then
                 match currentVideo s with
                 | Some _ => currentIndex s
                 | None => Some (-1)%Z
                 end
               else currentlyPlayingIndex st)
         /\ (isPlaying s = true -> is_Some (currentVideo s) ->
             valid_index (currentlyPlayingIndex st') (currentPlaylist st')
             = valid_index (currentIndex s) (currentPlaylist st)).
Proof.
  intros Hrun. split.
  - destruct (run_index _ _ _ Hrun) as [Hkept | [Hminus | Hreported]]; auto.
  - intros i code s Hreq Hok. eexists. split.
    { by apply status_poll_succeeds. }
    unfold fetchPlaybackStatus_success.
    rewrite renderPlaylist_currentPlaylist, renderPlaylist_currentlyPlayingIndex.
    rewrite status_written_items, status_written_index. simpl.
    split; [done |]. split; [done |].
    intros -> [video ->]. reflexivity.
Qed.

Lemma playing_index_is_reported_witness :
  exists st,
    run status_first (DOMContentLoaded blankPage) = Some st
    /\ (currentlyPlayingIndex st = Some (-1)%Z
        \/ currentlyPlayingIndex st ∈ reported status_first).
Proof.
  eexists. split; [reflexivity |].
  apply (playing_index_is_reported blankPage status_first). reflexivity.
Defined.

(** C1 as stated fails: the page loads and the answer to the first status
    poll (C is playing at position 2) arrives before the answer to the
    playlist fetch; after this successful poll the playing index is 2
    while the local playlist is still empty. *)
Lemma playing_index_out_of_bounds :
  (currentPlaylist <$> run status_first loaded) = Some []
  /\ (currentlyPlayingIndex <$> run status_first loaded) = Some (Some 2%Z)
  /\ ~ playing_none (Some 2%Z)
  /\ valid_index (Some 2%Z) [] = false.
Proof.
  split; [vm_compute; reflexivity |].
  split; [vm_compute; reflexivity |].
  split; [| reflexivity].
  intros [Hminus | Hnull]; discriminate.
Qed.

(** ** The rows that [renderPlaylist] builds *)

Lemma makeSortable_map (lis : list Li) : makeSortable lis = map sortable lis.
Proof. reflexivity. Qed.

Lemma map_imap {A B C} (g : B -> C) (f : nat -> A -> B) (l : list A) :
  map g (imap f l) = imap (fun i x => g (f i x)) l.
Proof.
  revert f. induction l as [| x l IH]; intros f; simpl; [done |].
  f_equal. apply IH.
Qed.

Lemma imap_forget {A B} (h : A -> B) (l : list A) :
  imap (fun _ x => h x) l = map h l.
Proof. induction l as [| x l IH]; simpl; [done |]. f_equal. apply IH. Qed.

Lemma renderPlaylist_empty (st : State) :
  currentPlaylist st = [] ->
  playlistElement (renderPlaylist st) = [sortable emptyLi].
Proof. intros Hempty. unfold renderPlaylist. simpl. by rewrite Hempty. Qed.

Lemma renderPlaylist_nonempty (st : State) :
  currentPlaylist st <> [] ->
  playlistElement (renderPlaylist st)
  = imap (fun index video => sortable (listItem st index video))
         (currentPlaylist st).
Proof.
  intros Hne. unfold renderPlaylist. simpl.
  destruct (currentPlaylist st) as [| v items] eqn:Hitems; [done |].
  simpl. rewrite makeSortable_map. f_equal. apply map_imap.
Qed.

Lemma renderPlaylist_filenames (st : State) :
  currentPlaylist st <> [] ->
  map dataset_filename (playlistElement (renderPlaylist st))
  = map (Some ∘ filename) (currentPlaylist st).
Proof.
  intros Hne. rewrite renderPlaylist_nonempty by done.
  rewrite map_imap. simpl. apply imap_forget.
Qed.

Lemma renderPlaylist_lookup (st : State) (i : nat) :
  currentPlaylist st <> [] ->
  playlistElement (renderPlaylist st) !! i
  = (fun video => sortable (listItem st i video)) <$> currentPlaylist st !! i.
Proof.
  intros Hne. rewrite renderPlaylist_nonempty by done.
  apply list_lookup_imap.
Qed.

(** X1: the rendered list mirrors the playlist.  For an empty playlist it
    is the single draggable placeholder row, without a filename; otherwise
    it has one draggable row per entry, in playlist order, row [i] showing
    the name of entry [i] and carrying its filename and the index [i]. *)
Theorem rendered_rows_mirror_playlist (st : State) :
  (currentPlaylist st = [] ->
   playlistElement (renderPlaylist st) = [sortable emptyLi])
  /\ (currentPlaylist st <> [] ->
      length (playlistElement (renderPlaylist st)) = length (currentPlaylist st)
      /\ map dataset_filename (playlistElement (renderPlaylist st))
         = map (Some ∘ filename) (currentPlaylist st)
      /\ forall i item,
           playlistElement (renderPlaylist st) !! i = Some item ->
           exists video,
             currentPlaylist st !! i = Some video
             /\ li_text item = name video
             /\ dataset_filename item = Some (filename video)
             /\ dataset_index item = Some i
             /\ draggable item = true).
Proof.
  split; [apply renderPlaylist_empty |].
  intros Hne. split; [| split].
  - rewrite renderPlaylist_nonempty by done. apply length_imap.
  - by apply renderPlaylist_filenames.
  - intros i item Hrow. rewrite renderPlaylist_lookup in Hrow by done.
    destruct (currentPlaylist st !! i) as [video |]; [| discriminate].
    injection Hrow as <-. by exists video.
Qed.

Lemma rendered_rows_mirror_playlist_witness :
  length (playlistElement
            (renderPlaylist (set_currentPlaylist [entryA; entryB] loaded))) = 2
  /\ map dataset_filename
       (playlistElement
          (renderPlaylist (set_currentPlaylist [entryA; entryB] loaded)))
     = [Some "a.mp4"; Some "b.mp4"].
Proof.
  destruct (rendered_rows_mirror_playlist
              (set_currentPlaylist [entryA; entryB] loaded))
    as [_ Hrows].
  destruct Hrows as (Hlen & Hnames & _); [discriminate |].
  split; [exact Hlen | exact Hnames].
Defined.

(** ** Which row is highlighted *)

Lemma rendered_highlight_iff (st : State) (k : nat) (row : Li) :
  playlistElement (renderPlaylist st) !! k = Some row ->
  class_playing row = true
  <-> currentPlaylist st <> []
      /\ currentlyPlayingIndex st = Some (Z.of_nat k)
      /\ includes "Playing" (textContent (playbackStatusElement st)) = true.
Proof.
  intros Hk.
  destruct (decide (currentPlaylist st = [])) as [Hempty | Hne].
  - rewrite renderPlaylist_empty in Hk by done.
    destruct k as [| k]; [| discriminate]. injection Hk as <-. simpl.
    split; [discriminate | by intros [? _]].
  - rewrite renderPlaylist_lookup in Hk by done.
    destruct (currentPlaylist st !! k) as [video |]; [| discriminate].
    injection Hk as <-. simpl. rewrite andb_true_iff.
    unfold strict_eq_index.
    destruct (currentlyPlayingIndex st) as [z |].
    + rewrite Z.eqb_eq. split.
      * intros [-> ?]. done.
      * intros (_ & [= <-] & ?). done.
    + split; [by intros [? _] | by intros (_ & ? & _)].
Qed.

Lemma rendered_names_spec (st : State) :
  map dataset_filename (playlistElement (renderPlaylist st))
  = rendered_names (currentPlaylist st).
Proof.
  destruct (currentPlaylist st) as [| v items] eqn:Hitems.
  - by rewrite renderPlaylist_empty.
  - rewrite renderPlaylist_filenames by (by rewrite Hitems). by rewrite Hitems.
Qed.

(** X2: a rendered row is highlighted exactly when the playlist is not
    empty, the row's position is the playing index and the status line
    contains "Playing"; hence at most one row is highlighted. *)
Theorem highlight_follows_index (st : State) (i : nat) (item : Li) :
  playlistElement (renderPlaylist st) !! i = Some item ->
  (class_playing item = true
   <-> currentPlaylist st <> []
       /\ currentlyPlayingIndex st = Some (Z.of_nat i)
       /\ includes "Playing" (textContent (playbackStatusElement st)) = true)
  /\ forall j other,
       playlistElement (renderPlaylist st) !! j = Some other ->
       class_playing item = true -> class_playing other = true -> i = j.
Proof.
  intros Hrow. split; [by apply rendered_highlight_iff |].
  intros j other Hother Hi Hj.
  apply (rendered_highlight_iff st i item Hrow) in Hi as (_ & Hi & _).
  apply (rendered_highlight_iff st j other Hother) in Hj as (_ & Hj & _).
  rewrite Hi in Hj. injection Hj as Hj. lia.
Qed.

Lemma highlight_follows_index_witness :
  class_playing
    {| li_text := "B"; dataset_filename := Some "b.mp4"; dataset_index := Some 1;
       class_playing := true; draggable := true |} = true
  <-> currentPlaylist (status_written
         {| isPlaying := true; currentVideo := Some entryB;
            currentIndex := Some 1%Z |}
         (set_currentPlaylist [entryA; entryB] loaded)) <> []
      /\ currentlyPlayingIndex (status_written
           {| isPlaying := true; currentVideo := Some entryB;
              currentIndex := Some 1%Z |}
           (set_currentPlaylist [entryA; entryB] loaded)) = Some (Z.of_nat 1)
      /\ includes "Playing"
           (textContent (playbackStatusElement (status_written
              {| isPlaying := true; currentVideo := Some entryB;
                 currentIndex := Some 1%Z |}
              (set_currentPlaylist [entryA; entryB] loaded)))) = true.
Proof.
  apply (highlight_follows_index
           (status_written
              {| isPlaying := true; currentVideo := Some entryB;
                 currentIndex := Some 1%Z |}
              (set_currentPlaylist [entryA; entryB] loaded)) 1).
  reflexivity.
Defined.

(** ** What a status poll's answer shows *)



(** X4: when a status poll fails, or succeeds with isPlaying false, the
    re-rendered list highlights no row, while the stored playing index is
    kept as it was. *)
Theorem idle_or_failed_poll_highlights_nothing (resp : Response) (st st' : State) :
  fetchPlaybackStatus_resume resp st = Some st' ->
  request_failed resp = true
    \/ (exists code s, resp = Http code (Parsed (JStatus s)) /\ isPlaying s = false) ->
  Forall (fun item => class_playing item = false) (playlistElement st')
  /\ currentlyPlayingIndex st' = currentlyPlayingIndex st
  /\ currentPlaylist st' = currentPlaylist st.
Proof.
  intros Hresume Hcase.
  assert (Hform : st' = fetchPlaybackStatus_failure st
                  \/ exists s, isPlaying s = false
                               /\ st' = fetchPlaybackStatus_success s st).
  { destruct Hcase as [Hfailed | (code & s & -> & Hidle)].
    - left. rewrite (failed_poll_resume _ _ Hfailed) in Hresume. congruence.
    - simpl in Hresume. destruct (ok code).
      + right. exists s. split; [done | congruence].
      + left. congruence. }
  destruct Hform as [-> | (s & Hidle & ->)].
  - split; [| done]. apply renderPlaylist_highlight.
    intros index video _. unfold listItem. simpl. apply andb_false_r.
  - unfold fetchPlaybackStatus_success. split; [| split].
    + apply renderPlaylist_highlight. intros index video _. unfold listItem.
      rewrite status_written_text, Hidle. apply andb_false_r.
    + by rewrite renderPlaylist_currentlyPlayingIndex, status_written_index, Hidle.
    + apply status_written_items.
Qed.

Lemma idle_or_failed_poll_highlights_nothing_witness :
  Forall (fun item => class_playing item = false)
         (playlistElement
            (fetchPlaybackStatus_failure
               (fetchPlaybackStatus_success
                  {| isPlaying := true; currentVideo := Some entryA;
                     currentIndex := Some 0%Z |}
                  (set_currentPlaylist [entryA; entryB] loaded))))
  /\ currentlyPlayingIndex
       (fetchPlaybackStatus_failure
          (fetchPlaybackStatus_success
             {| isPlaying := true; currentVideo := Some entryA;
                currentIndex := Some 0%Z |}
             (set_currentPlaylist [entryA; entryB] loaded)))
     = Some 0%Z
  /\ currentPlaylist
       (fetchPlaybackStatus_failure
          (fetchPlaybackStatus_success
             {| isPlaying := true; currentVideo := Some entryA;
                currentIndex := Some 0%Z |}
             (set_currentPlaylist [entryA; entryB] loaded)))
     = [entryA; entryB].
Proof.
  apply (idle_or_failed_poll_highlights_nothing (NetworkError "Failed to fetch")
           (fetchPlaybackStatus_success
              {| isPlaying := true; currentVideo := Some entryA;
                 currentIndex := Some 0%Z |}
              (set_currentPlaylist [entryA; entryB] loaded))).
  - reflexivity.
  - left. reflexivity.
Defined.

(** X6: the answer to a status poll, whatever it is, rebuilds the rows
    from the items: an error row, or a dragged order that is not yet
    confirmed, is replaced by the items in their own order. *)
Theorem poll_answer_rebuilds_rows (i : nat) (resp : Response) (st st' : State) :
  inflight st !! i = Some GetStatus ->
  step (Deliver i resp) st = Some st' ->
  map dataset_filename (playlistElement st') = rendered_names (currentPlaylist st)
  /\ currentPlaylist st' = currentPlaylist st.
Proof.
  intros Hreq Hstep. simpl in Hstep. rewrite Hreq in Hstep. simpl in Hstep.
  assert (Hform : st' = fetchPlaybackStatus_failure
                          (set_inflight (delete i (inflight st)) st)
                  \/ exists s, st' = fetchPlaybackStatus_success s
                                       (set_inflight (delete i (inflight st)) st)).
  { destruct resp as [msg | code [[videos | s | result] | msg]];
      simpl in Hstep; destruct (ok code) in Hstep || idtac;
      try discriminate; try (left; congruence).
    right. exists s. congruence. }
  destruct Hform as [-> | [s ->]].
  - split; [| done]. unfold fetchPlaybackStatus_failure.
    by rewrite rendered_names_spec.
  - unfold fetchPlaybackStatus_success.
    rewrite rendered_names_spec, renderPlaylist_currentPlaylist.
    by rewrite status_written_items.
Qed.

Lemma poll_answer_rebuilds_rows_witness :
  exists st',
    step (Deliver 0 (NetworkError "Failed to fetch"))
         (set_playlistElement [errorLi]
            (fetchPlaybackStatus
               (set_inflight [] (set_currentPlaylist [entryA; entryB] loaded))))
    = Some st'
    /\ map dataset_filename (playlistElement st') = [Some "a.mp4"; Some "b.mp4"].
Proof.
  eexists. split; [reflexivity |].
  eapply (poll_answer_rebuilds_rows 0 (NetworkError "Failed to fetch")
            (set_playlistElement [errorLi]
               (fetchPlaybackStatus
                  (set_inflight [] (set_currentPlaylist [entryA; entryB] loaded)))));
    reflexivity.
Defined.

(** ** A playlist fetch that fails *)

Lemma failed_fetch_resume (resp : Response) (st : State) :
  request_failed resp = true ->
  fetchPlaylist_resume resp st = Some (set_playlistElement [errorLi] st).
Proof.
  destruct resp as [msg | code [j | msg]]; simpl; try done.
  - intros Hok%negb_true_iff. by rewrite Hok.
  - intros _. by destruct (ok code).
Qed.

(** X5: when a playlist fetch fails (rejected, non-success status or
    unparsable body), the items and the playing index are kept, nothing is
    sent again, and the list shows the single row "Error loading
    playlist.", from which nothing can be dragged, deleted or played. *)
Theorem failed_fetch_shows_inert_row (i : nat) (resp : Response) (st : State) :
  inflight st !! i = Some GetVideos ->
  request_failed resp = true ->
  exists st',
    step (Deliver i resp) st = Some st'
    /\ playlistElement st' = [errorLi]
    /\ currentPlaylist st' = currentPlaylist st
    /\ currentlyPlayingIndex st' = currentlyPlayingIndex st
    /\ sent st' = sent st
    /\ (forall a b, step (DragDrop a b) st' = None)
    /\ (forall a confirmed, step (ClickDelete a confirmed) st' = None)
    /\ (forall a, step (ClickItem a) st' = None).
Proof.
  intros Hreq Hfailed. eexists. split.
  { simpl. rewrite Hreq. simpl. by apply failed_fetch_resume. }
  simpl. repeat split; intros [| a]; intros; reflexivity.
Qed.

Lemma failed_fetch_shows_inert_row_witness :
  exists st',
    step (Deliver 0 (Http 500 (SyntaxError "Unexpected token <"))) loaded = Some st'
    /\ playlistElement st' = [errorLi]
    /\ currentPlaylist st' = []
    /\ currentlyPlayingIndex st' = Some (-1)%Z.
Proof.
  destruct (failed_fetch_shows_inert_row 0
              (Http 500 (SyntaxError "Unexpected token <")) loaded)
    as (st' & Hstep & Hrows & Hitems & Hindex & _);
    [reflexivity | reflexivity |].
  exists st'. repeat split; assumption.
Defined.

(** ** Where the items come from *)


Lemma resume_items (req : Request) (resp : Response) (st st' : State) :
  resume req resp st = Some st' ->
  currentPlaylist st' = currentPlaylist st
  \/ (exists code videos,
        req = GetVideos /\ resp = Http code (Parsed (JVideos videos))
        /\ ok code = true /\ currentPlaylist st' = videos)
  \/ (exists code result order,
        req = PostReorder order /\ resp = Http code (Parsed (JResult result))
        /\ ok code = true
        /\ currentPlaylist st' = filter_Boolean (newPlaylist order st)).
Proof.
  destruct req as [| file | fname | order | command body |]; simpl;
    intros Hresume.
  - destruct resp as [msg | code [[videos | s | result] | msg]];
      simpl in Hresume; try (left; items_kept; fail).
    destruct (ok code) eqn:Hok; [| left; items_kept; fail].
    injection Hresume as <-. right; left. by exists code, videos.
  - left. unfold uploadForm_submit_resume in Hresume. items_kept.
  - left. unfold deleteVideo_resume in Hresume. items_kept.
  - destruct resp as [msg | code [[videos | s | result] | msg]];
      simpl in Hresume; try (left; items_kept; fail).
    destruct (ok code) eqn:Hok; [| left; items_kept; fail].
    injection Hresume as <-. right; right. by exists code, result, order.
  - left. unfold sendPlaybackCommand_resume in Hresume. items_kept.
  - left. unfold fetchPlaybackStatus_resume in Hresume.
    destruct resp as [msg | code [[videos | s | result] | msg]];
      try (items_kept; fail).
    destruct (ok code); [| items_kept; fail].
    injection Hresume as <-. unfold fetchPlaybackStatus_success.
    by rewrite renderPlaylist_currentPlaylist, status_written_items.
Qed.

(** X8: the items change only when a playlist fetch succeeds (they become
    the fetched list) or a reorder is confirmed (they become the candidate
    mapped onto the items); ticks, drags, file choices, submits, clicks and
    every other answer leave them as they are. *)
Theorem items_change_only_by_fetch_or_reorder (ev : Event) (st st' : State) :
  step ev st = Some st' ->
  currentPlaylist st' = currentPlaylist st
  \/ (exists i code videos,
        ev = Deliver i (Http code (Parsed (JVideos videos)))
        /\ inflight st !! i = Some GetVideos /\ ok code = true
        /\ currentPlaylist st' = videos)
  \/ (exists i code result order,
        ev = Deliver i (Http code (Parsed (JResult result)))
        /\ inflight st !! i = Some (PostReorder order) /\ ok code = true
        /\ currentPlaylist st' = filter_Boolean (newPlaylist order st)).
Proof.
  destruct ev as [| i j | files | | i confirmed | i | command | i resp];
    simpl; intros Hstep.
  - left. items_kept.
  - left. unfold updatePlaylistOrder in Hstep. items_kept.
  - left. items_kept.
  - left. unfold uploadForm_submit in Hstep. items_kept.
  - left. unfold deleteVideo in Hstep. items_kept.
  - left. items_kept.
  - left. items_kept.
  - destruct (inflight st !! i) as [req |] eqn:Hreq; [| discriminate].
    apply resume_items in Hstep
      as [Hkept | [(code & videos & -> & -> & Hok & Hitems)
                  | (code & result & order & -> & -> & Hok & Hitems)]].
    + by left.
    + right; left. by exists i, code, videos.
    + right; right. by exists i, code, result, order.
Qed.

Lemma items_change_only_by_fetch_or_reorder_witness :
  step (Deliver 0 (okVideos [entryA])) loaded
    = Some (renderPlaylist
              (set_currentPlaylist [entryA] (set_inflight [GetStatus] loaded)))
  /\ (currentPlaylist
        (renderPlaylist
           (set_currentPlaylist [entryA] (set_inflight [GetStatus] loaded)))
      = currentPlaylist loaded
      \/ (exists i code videos,
            Deliver 0 (okVideos [entryA])
              = Deliver i (Http code (Parsed (JVideos videos)))
            /\ inflight loaded !! i = Some GetVideos /\ ok code = true
            /\ currentPlaylist
                 (renderPlaylist
                    (set_currentPlaylist [entryA] (set_inflight [GetStatus] loaded)))
               = videos)
      \/ (exists i code result order,
            Deliver 0 (okVideos [entryA])
              = Deliver i (Http code (Parsed (JResult result)))
            /\ inflight loaded !! i = Some (PostReorder order) /\ ok code = true
            /\ currentPlaylist
                 (renderPlaylist
                    (set_currentPlaylist [entryA] (set_inflight [GetStatus] loaded)))
               = filter_Boolean (newPlaylist order loaded))).
Proof.
  split; [reflexivity |].
  apply (items_change_only_by_fetch_or_reorder (Deliver 0 (okVideos [entryA])) loaded).
  reflexivity.
Defined.





(** ** Dragging a row *)

Lemma move_Permutation {A} (i j : nat) (l : list A) : move i j l ≡ₚ l.
Proof.
  unfold move. destruct (l !! i) as [x |] eqn:Hx; [| done].
  rewrite <- Permutation_middle, take_drop.
  symmetry. by apply delete_Permutation.
Qed.

Lemma length_move {A} (i j : nat) (l : list A) : length (move i j l) = length l.
Proof. apply Permutation_length, move_Permutation. Qed.

(** Dropping a row where it was picked up changes nothing. *)
Lemma move_same {A} (i : nat) (l : list A) : move i i l = l.
Proof.
  unfold move. destruct (l !! i) as [x |] eqn:Hx; [| done].
  pose proof (lookup_lt_Some _ _ _ Hx) as Hlt.
  rewrite delete_take_drop.
  rewrite take_app_length' by (rewrite length_take_le; lia).
  rewrite drop_app_length' by (rewrite length_take_le; lia).
  by apply take_drop_middle.
Qed.

Lemma map_move {A B} (f : A -> B) (i j : nat) (l : list A) :
  map f (move i j l) = move i j (map f l).
Proof.
  change (f <$> move i j l = move i j (f <$> l)).
  unfold move. rewrite list_lookup_fmap.
  destruct (l !! i) as [x |]; simpl; [| done].
  by rewrite fmap_app, fmap_cons, fmap_take, fmap_drop, list_fmap_delete.
Qed.

Lemma rendered_row_draggable (st : State) (i : nat) :
  i < length (currentPlaylist st) ->
  exists item,
    playlistElement (renderPlaylist st) !! i = Some item
    /\ draggable item = true.
Proof.
  intros Hlt.
  assert (Hne : currentPlaylist st <> []).
  { intros Hempty. rewrite Hempty in Hlt. simpl in Hlt. lia. }
  destruct (lookup_lt_is_Some_2 _ _ Hlt) as [video Hvideo].
  eexists. rewrite renderPlaylist_lookup, Hvideo by done. simpl. done.
Qed.

Lemma rendered_length (st : State) :
  currentPlaylist st <> [] ->
  length (playlistElement (renderPlaylist st)) = length (currentPlaylist st).
Proof. intros Hne. rewrite renderPlaylist_nonempty by done. apply length_imap. Qed.

(** The state after the row at [i] of the freshly rendered list of [st]
    was dropped at [j]. *)
Lemma drop_on_rendered_list (st : State) (i j : nat) :
  i < length (currentPlaylist st) ->
  j < length (currentPlaylist st) ->
  step (DragDrop i j) (renderPlaylist st)
  = Some (fetch (PostReorder (map (Some ∘ filename) (move i j (currentPlaylist st))))
            (set_playlistElement
               (move i j (playlistElement (renderPlaylist st)))
               (renderPlaylist st))).
Proof.
  intros Hi Hj.
  assert (Hne : currentPlaylist st <> []).
  { intros Hempty. rewrite Hempty in Hi. simpl in Hi. lia. }
  destruct (rendered_row_draggable st i Hi) as (item & Hrow & Hdrag).
  cbn [step]. rewrite Hrow, Hdrag, rendered_length by done.
  destruct (Nat.ltb_spec j (length (currentPlaylist st))) as [_ | ?]; [| lia].
  cbn [andb]. f_equal. unfold updatePlaylistOrder.
  cbn [playlistElement set_playlistElement currentPlaylist].
  rewrite length_map, length_move, rendered_length, Nat.eqb_refl by done.
  cbn [negb]. by rewrite map_move, renderPlaylist_filenames, <- map_move by done.
Qed.

(** X9: dropping row [i] of a freshly rendered, non-empty list at position
    [j] sends one reorder request, whose playlist is the filenames of the
    items with entry [i] moved to position [j] (a permutation of the items'
    filenames); the items themselves stay as they are until the answer
    arrives. *)
Theorem drop_sends_moved_order (st : State) (i j : nat) :
  i < length (currentPlaylist st) ->
  j < length (currentPlaylist st) ->
  exists st',
    step (DragDrop i j) (renderPlaylist st) = Some st'
    /\ sent st'
       = sent st ++ [PostReorder (map (Some ∘ filename) (move i j (currentPlaylist st)))]
    /\ map (Some ∘ filename) (move i j (currentPlaylist st))
       ≡ₚ map (Some ∘ filename) (currentPlaylist st)
    /\ map dataset_filename (playlistElement st')
       = map (Some ∘ filename) (move i j (currentPlaylist st))
    /\ currentPlaylist st' = currentPlaylist st
    /\ currentlyPlayingIndex st' = currentlyPlayingIndex st.
Proof.
  intros Hi Hj. eexists. split; [by apply drop_on_rendered_list |].
  assert (Hne : currentPlaylist st <> []).
  { intros Hempty. rewrite Hempty in Hi. simpl in Hi. lia. }
  simpl. split; [done |]. split; [| split; [| done]].
  - apply Permutation_map, move_Permutation.
  - change (map dataset_filename
              (move i j (playlistElement (renderPlaylist st)))
            = map (Some ∘ filename) (move i j (currentPlaylist st))).
    by rewrite map_move, renderPlaylist_filenames, <- map_move by done.
Qed.

Lemma drop_sends_moved_order_witness :
  exists st',
    step (DragDrop 2 0)
         (renderPlaylist (set_currentPlaylist [entryA; entryB; entryC] loaded))
    = Some st'
    /\ sent st'
       = [GetVideos; GetStatus;
          PostReorder [Some "c.mp4"; Some "a.mp4"; Some "b.mp4"]].
Proof.
  destruct (drop_sends_moved_order
              (set_currentPlaylist [entryA; entryB; entryC] loaded) 2 0)
    as (st' & Hstep & Hsent & _); [simpl; lia | simpl; lia |].
  exists st'. split; [exact Hstep | exact Hsent].
Defined.

(** X10: a drop that leaves the row where it was still sends a reorder
    request, carrying the items' filenames in their current order. *)
Theorem drop_in_place_sends_same_order (st : State) (i : nat) :
  i < length (currentPlaylist st) ->
  step (DragDrop i i) (renderPlaylist st)
  = Some (fetch (PostReorder (map (Some ∘ filename) (currentPlaylist st)))
            (renderPlaylist st)).
Proof.
  intros Hi. rewrite drop_on_rendered_list by done.
  rewrite !move_same. by destruct st.
Qed.

Lemma drop_in_place_sends_same_order_witness :
  step (DragDrop 1 1) (renderPlaylist (set_currentPlaylist [entryA; entryB] loaded))
  = Some (fetch (PostReorder [Some "a.mp4"; Some "b.mp4"])
            (renderPlaylist (set_currentPlaylist [entryA; entryB] loaded))).
Proof.
  apply (drop_in_place_sends_same_order
           (set_currentPlaylist [entryA; entryB] loaded) 1).
  simpl. lia.
Defined.

(** X11: on an empty playlist the only row is the placeholder; dragging it
    sends no reorder request but a re-fetch of the playlist, because the
    one row does not match the zero items. *)
Theorem placeholder_drag_refetches (st : State) :
  currentPlaylist st = [] ->
  step (DragDrop 0 0) (renderPlaylist st) = Some (fetchPlaylist (renderPlaylist st))
  /\ forall i j, step (DragDrop i j) (renderPlaylist st) <> None -> i = 0 /\ j = 0.
Proof.
  intros Hempty. split.
  - cbn [step]. rewrite renderPlaylist_empty by done. cbn.
    unfold updatePlaylistOrder. cbn. rewrite Hempty. cbn.
    unfold fetchPlaylist. f_equal. unfold renderPlaylist. rewrite Hempty. cbn.
    by destruct st.
  - intros i j. cbn [step]. rewrite renderPlaylist_empty by done.
    destruct i as [| i]; [| done]. destruct j as [| j]; [done |].
    cbn. done.
Qed.

Lemma placeholder_drag_refetches_witness :
  step (DragDrop 0 0) (renderPlaylist loaded)
  = Some (fetchPlaylist (renderPlaylist loaded)).
Proof.
  apply (placeholder_drag_refetches loaded). reflexivity.
Defined.

(** ** A drop that is confirmed *)

Lemma resolve_names_of_known (items l : list MediaEntry) :
  NoDup (map filename items) ->
  (forall video, video ∈ l -> video ∈ items) ->
  filter_Boolean (map (find_video items) (map (Some ∘ filename) l)) = l.
Proof.
  intros Hnd. induction l as [| v l IH]; intros Hsub; simpl; [done |].
  rewrite resolve_self by (done || apply Hsub; left).
  f_equal. apply IH. intros w Hw. apply Hsub. by right.
Qed.

Lemma lookup_snoc {A} (l : list A) (x : A) : (l ++ [x]) !! length l = Some x.
Proof. by apply list_lookup_middle. Qed.

Lemma delete_snoc {A} (l : list A) (x : A) : delete (length l) (l ++ [x]) = l.
Proof.
  rewrite delete_take_drop, take_app_length, drop_app.
  rewrite drop_ge by lia.
  replace (S (length l) - length l) with 1 by lia.
  by rewrite app_nil_r.
Qed.

(** X12: with unique filenames, dropping row [i] of the freshly rendered
    list at position [j] and having the reorder confirmed moves entry [i]
    of the items to position [j]; the list is re-rendered in that order,
    the playing index is not touched, and a status poll is in flight. *)
Theorem confirmed_drop_moves_entry (st : State) (i j code : nat) (result : Result) :
  NoDup (map filename (currentPlaylist st)) ->
  i < length (currentPlaylist st) ->
  j < length (currentPlaylist st) ->
  ok code = true ->
  exists st',
    run [DragDrop i j;
         Deliver (length (inflight st)) (Http code (Parsed (JResult result)))]
        (renderPlaylist st) = Some st'
    /\ currentPlaylist st' = move i j (currentPlaylist st)
    /\ map dataset_filename (playlistElement st')
       = map (Some ∘ filename) (move i j (currentPlaylist st))
    /\ currentlyPlayingIndex st' = currentlyPlayingIndex st
    /\ inflight st' = inflight st ++ [GetStatus].
Proof.
  intros Hnd Hi Hj Hok.
  assert (Hitems :
    filter_Boolean
      (map (find_video (currentPlaylist st))
           (map (Some ∘ filename) (move i j (currentPlaylist st))))
    = move i j (currentPlaylist st)).
  { apply resolve_names_of_known; [done |].
    intros video Hin. by rewrite move_Permutation in Hin. }
  set (order := map (Some ∘ filename) (move i j (currentPlaylist st))) in *.
  set (st1 := fetch (PostReorder order)
                (set_playlistElement
                   (move i j (playlistElement (renderPlaylist st)))
                   (renderPlaylist st))).
  assert (Hconfirm :
    step (Deliver (length (inflight st)) (Http code (Parsed (JResult result)))) st1
    = Some (updatePlaylistOrder_success order (set_inflight (inflight st) st1))).
  { unfold step.
    change (inflight st1) with (inflight st ++ [PostReorder order]).
    rewrite lookup_snoc, delete_snoc.
    by apply updatePlaylistOrder_resume_ok. }
  exists (updatePlaylistOrder_success order (set_inflight (inflight st) st1)).
  split.
  { unfold run. rewrite drop_on_rendered_list by done.
    fold order st1. by rewrite Hconfirm. }
  assert (Hnew :
    currentPlaylist (updatePlaylistOrder_success order (set_inflight (inflight st) st1))
    = move i j (currentPlaylist st)).
  { exact Hitems. }
  split; [exact Hnew |]. split; [| done].
  unfold updatePlaylistOrder_success at 1. rewrite rendered_names_spec.
  change (rendered_names
            (currentPlaylist
               (updatePlaylistOrder_success order (set_inflight (inflight st) st1)))
          = order).
  rewrite Hnew. unfold rendered_names, order.
  destruct (move i j (currentPlaylist st)) as [| v l] eqn:Hmoved; [| done].
  apply (f_equal length) in Hmoved. rewrite length_move in Hmoved.
  simpl in Hmoved. lia.
Qed.

Lemma confirmed_drop_moves_entry_witness :
  exists st',
    run [DragDrop 2 0; Deliver 2 (okMessage "Playlist reordered")]
        (renderPlaylist (set_currentPlaylist [entryA; entryB; entryC] loaded))
    = Some st'
    /\ currentPlaylist st' = [entryC; entryA; entryB].
Proof.
  destruct (confirmed_drop_moves_entry
              (set_currentPlaylist [entryA; entryB; entryC] loaded) 2 0 200
              {| message := Some "Playlist reordered"; r_filename := None;
                 error := None |})
    as (st' & Hrun & Hitems & _).
  - apply (bool_decide_unpack _). vm_compute. exact I.
  - simpl. lia.
  - simpl. lia.
  - reflexivity.
  - exists st'. split; [exact Hrun | exact Hitems].
Defined.

(** ** A reorder that is refused *)

(** X13: when a reorder fails, the items are kept and one re-fetch is
    sent; once that re-fetch succeeds the items are the fetched list and
    the rows are rebuilt from it, so the dragged order is gone. *)
Theorem refused_reorder_is_replaced_by_fetch (i code : nat) (resp : Response)
    (order : list (option string)) (videos : list MediaEntry) (st : State) :
  inflight st !! i = Some (PostReorder order) ->
  request_failed resp = true ->
  ok code = true ->
  exists st1 st2,
    step (Deliver i resp) st = Some st1
    /\ currentPlaylist st1 = currentPlaylist st
    /\ playlistElement st1 = playlistElement st
    /\ sent st1 = sent st ++ [GetVideos]
    /\ step (Deliver (length (delete i (inflight st)))
               (Http code (Parsed (JVideos videos)))) st1 = Some st2
    /\ currentPlaylist st2 = videos
    /\ map dataset_filename (playlistElement st2) = rendered_names videos
    /\ currentlyPlayingIndex st2 = currentlyPlayingIndex st
    /\ sent st2 = sent st ++ [GetVideos].
Proof.
  intros Hreq Hfailed Hok. eexists. eexists. split.
  { cbn [step]. rewrite Hreq. cbn [resume].
    by apply updatePlaylistOrder_resume_failed. }
  split; [done |]. split; [done |]. split; [done |]. split.
  { cbn [step inflight fetchPlaylist fetch set_inflight].
    rewrite lookup_snoc, delete_snoc. cbn [resume fetchPlaylist_resume].
    by rewrite Hok. }
  split; [done |]. split; [| done].
  by rewrite rendered_names_spec.
Qed.

Lemma refused_reorder_is_replaced_by_fetch_witness :
  exists st1 st2,
    step (Deliver 0 (errorBody 500 "write failed"))
         (fetch (PostReorder [Some "b.mp4"; Some "a.mp4"])
            (set_inflight [] (set_currentPlaylist [entryA; entryB] loaded)))
    = Some st1
    /\ step (Deliver 0 (okVideos [entryA; entryB])) st1 = Some st2
    /\ currentPlaylist st2 = [entryA; entryB]
    /\ map dataset_filename (playlistElement st2) = [Some "a.mp4"; Some "b.mp4"].
Proof.
  destruct (refused_reorder_is_replaced_by_fetch 0 200
              (errorBody 500 "write failed") [Some "b.mp4"; Some "a.mp4"]
              [entryA; entryB]
              (fetch (PostReorder [Some "b.mp4"; Some "a.mp4"])
                 (set_inflight [] (set_currentPlaylist [entryA; entryB] loaded))))
    as (st1 & st2 & H1 & _ & _ & _ & H2 & Hitems & Hrows & _);
    [reflexivity | reflexivity | reflexivity |].
  exists st1, st2. repeat split; assumption.
Defined.

(** ** Uploading *)

Lemma upload_reply_failed (resp : Response) (st : State) :
  reply_failed resp = true ->
  exists text,
    uploadForm_submit_resume resp st = Some (set_uploadStatus text "status-error" st).
Proof.
  destruct resp as [msg | code [[videos | s | result] | msg]]; simpl;
    try discriminate; try (intros _; by eexists).
  intros Hok%negb_true_iff. rewrite Hok. by eexists.
Qed.

(** X14: with files selected, a submit uploads the first file only; once
    the upload succeeds the selection is cleared and one playlist fetch is
    sent, so that a second submit sends nothing and replaces the success
    message by "Please select a video file.".  The items are untouched
    throughout. *)
Theorem upload_success_clears_selection (file : File) (rest : list File)
    (code : nat) (result : Result) (st : State) :
  videoFile_files st = Some (file :: rest) ->
  ok code = true ->
  exists st1 st2 st3,
    step Submit st = Some st1
    /\ sent st1 = sent st ++ [PostUpload file]
    /\ uploadStatus st1
       = {| textContent := "Uploading..."; className := "status-pending" |}
    /\ step (Deliver (length (inflight st)) (Http code (Parsed (JResult result)))) st1
       = Some st2
    /\ videoFile_files st2 = Some []
    /\ className (uploadStatus st2) = "status-success"
    /\ sent st2 = sent st ++ [PostUpload file; GetVideos]
    /\ step Submit st2 = Some st3
    /\ sent st3 = sent st2
    /\ uploadStatus st3
       = {| textContent := "Please select a video file.";
            className := "status-error" |}
    /\ currentPlaylist st3 = currentPlaylist st.
Proof.
  intros Hfiles Hok.
  assert (Hsubmit : uploadForm_submit st
                    = fetch (PostUpload file)
                        (set_uploadStatus "Uploading..." "status-pending" st)).
  { unfold uploadForm_submit. by rewrite Hfiles. }
  eexists. eexists. eexists.
  split. { cbn [step]. by rewrite Hsubmit. }
  split; [done |]. split; [done |].
  split.
  { cbn [step inflight fetch set_uploadStatus].
    rewrite lookup_snoc, delete_snoc. cbn [resume uploadForm_submit_resume].
    by rewrite Hok. }
  split; [done |]. split; [done |].
  split. { cbn. by rewrite <- app_assoc. }
  split; [reflexivity |]. done.
Qed.

Lemma upload_success_clears_selection_witness :
  exists st1 st2 st3,
    step Submit (set_videoFile_files (Some ["d.mp4"; "e.mp4"]) loaded) = Some st1
    /\ step (Deliver 2 (okMessage "Uploaded")) st1 = Some st2
    /\ step Submit st2 = Some st3
    /\ sent st3 = [GetVideos; GetStatus; PostUpload "d.mp4"; GetVideos].
Proof.
  destruct (upload_success_clears_selection "d.mp4" ["e.mp4"] 200
              {| message := Some "Uploaded"; r_filename := None; error := None |}
              (set_videoFile_files (Some ["d.mp4"; "e.mp4"]) loaded))
    as (st1 & st2 & st3 & H1 & _ & _ & H2 & _ & _ & Hsent2 & H3 & Hsent3 & _);
    [reflexivity | reflexivity |].
  exists st1, st2, st3. rewrite Hsent3, Hsent2. repeat split; assumption.
Defined.

(** X15: when an upload fails in any way (rejected, unparsable body or
    non-success status), the status shows an error, the selection, the
    items and the rows are kept and nothing is sent; a second submit
    therefore uploads the same file again. *)
Theorem upload_failure_keeps_selection (file : File) (rest : list File)
    (resp : Response) (st : State) :
  videoFile_files st = Some (file :: rest) ->
  reply_failed resp = true ->
  exists st',
    run [Submit; Deliver (length (inflight st)) resp] st = Some st'
    /\ className (uploadStatus st') = "status-error"
    /\ videoFile_files st' = Some (file :: rest)
    /\ currentPlaylist st' = currentPlaylist st
    /\ playlistElement st' = playlistElement st
    /\ inflight st' = inflight st
    /\ sent st' = sent st ++ [PostUpload file]
    /\ (sent <$> step Submit st') = Some (sent st ++ [PostUpload file; PostUpload file]).
Proof.
  intros Hfiles Hfailed.
  assert (Hsubmit : uploadForm_submit st
                    = fetch (PostUpload file)
                        (set_uploadStatus "Uploading..." "status-pending" st)).
  { unfold uploadForm_submit. by rewrite Hfiles. }
  destruct (upload_reply_failed resp
              (set_inflight (inflight st)
                 (fetch (PostUpload file)
                    (set_uploadStatus "Uploading..." "status-pending" st)))
              Hfailed) as [text Hresume].
  eexists. split.
  { cbn [run step]. rewrite Hsubmit.
    cbn [inflight fetch set_uploadStatus].
    rewrite lookup_snoc, delete_snoc. cbn [resume]. by rewrite Hresume. }
  cbn. repeat (split; [done |]).
  unfold uploadForm_submit. cbn. rewrite Hfiles. cbn.
  by rewrite <- app_assoc.
Qed.

Lemma upload_failure_keeps_selection_witness :
  exists st',
    run [Submit; Deliver 2 (NetworkError "Failed to fetch")]
        (set_videoFile_files (Some ["d.mp4"]) loaded) = Some st'
    /\ className (uploadStatus st') = "status-error"
    /\ videoFile_files st' = Some ["d.mp4"].
Proof.
  destruct (upload_failure_keeps_selection "d.mp4" [] (NetworkError "Failed to fetch")
              (set_videoFile_files (Some ["d.mp4"]) loaded))
    as (st' & Hrun & Hclass & Hfiles & _); [reflexivity | reflexivity |].
  exists st'. repeat split; assumption.
Defined.

(** ** The buttons of a row *)

(** X16: on a freshly rendered list, the delete button of row [i] asks to
    delete the file of entry [i] when the user confirms and does nothing
    when the user declines; a click on row [i] asks to play the file of
    entry [i], or sends a plain play command when that filename is empty.
    Past the last row there is nothing to click. *)
Theorem row_buttons_target_entry (st : State) (i : nat) (video : MediaEntry) :
  currentPlaylist st !! i = Some video ->
  step (ClickDelete i true) (renderPlaylist st)
    = Some (fetch (DeleteVideo (filename video)) (renderPlaylist st))
  /\ step (ClickDelete i false) (renderPlaylist st) = Some (renderPlaylist st)
  /\ step (ClickItem i) (renderPlaylist st)
     = Some (fetch (PostPlayback play
                      (if String.eqb (filename video) EmptyString then None
                       else Some (filename video)))
               (renderPlaylist st))
  /\ forall k confirmed,
       currentPlaylist st !! k = None ->
       step (ClickDelete k confirmed) (renderPlaylist st) = None
       /\ step (ClickItem k) (renderPlaylist st) = None.
Proof.
  intros Hvideo.
  assert (Hne : currentPlaylist st <> []).
  { intros Hempty. by rewrite Hempty in Hvideo. }
  split; [| split; [| split]].
  - cbn [step]. by rewrite renderPlaylist_lookup, Hvideo by done.
  - cbn [step]. by rewrite renderPlaylist_lookup, Hvideo by done.
  - cbn [step]. by rewrite renderPlaylist_lookup, Hvideo by done.
  - intros k confirmed Hnone.
    cbn [step]. by rewrite renderPlaylist_lookup, Hnone by done.
Qed.

Lemma row_buttons_target_entry_witness :
  step (ClickDelete 1 true)
       (renderPlaylist (set_currentPlaylist [entryA; entryB] loaded))
    = Some (fetch (DeleteVideo "b.mp4")
              (renderPlaylist (set_currentPlaylist [entryA; entryB] loaded)))
  /\ step (ClickDelete 1 false)
       (renderPlaylist (set_currentPlaylist [entryA; entryB] loaded))
     = Some (renderPlaylist (set_currentPlaylist [entryA; entryB] loaded))
  /\ step (ClickItem 1)
       (renderPlaylist (set_currentPlaylist [entryA; entryB] loaded))
     = Some (fetch (PostPlayback play (Some "b.mp4"))
               (renderPlaylist (set_currentPlaylist [entryA; entryB] loaded))).
Proof.
  destruct (row_buttons_target_entry
              (set_currentPlaylist [entryA; entryB] loaded) 1 entryB)
    as (Hdelete & Hdecline & Hplay & _); [reflexivity |].
  repeat split; assumption.
Defined.

(** ** Deleting and playback commands *)

(** X17: the answer to a delete request never changes the items, the rows
    or the playing index by itself.  A success sends a playlist fetch and
    then a status poll, and alerts nothing; any failure sends nothing and
    raises exactly one alert.  So the deleted row stays on display until
    the playlist fetch is answered. *)
Theorem delete_answer_only_refreshes (i : nat) (fname : string) (resp : Response)
    (st st' : State) :
  inflight st !! i = Some (DeleteVideo fname) ->
  step (Deliver i resp) st = Some st' ->
  currentPlaylist st' = currentPlaylist st
  /\ playlistElement st' = playlistElement st
  /\ currentlyPlayingIndex st' = currentlyPlayingIndex st
  /\ (if reply_failed resp
      then sent st' = sent st
           /\ inflight st' = delete i (inflight st)
           /\ exists msg, alerts st' = alerts st ++ [msg]
      else sent st' = sent st ++ [GetVideos; GetStatus]
           /\ inflight st' = delete i (inflight st) ++ [GetVideos; GetStatus]
           /\ alerts st' = alerts st).
Proof.
  intros Hreq Hstep. cbn [step] in Hstep. rewrite Hreq in Hstep.
  cbn [resume] in Hstep.
  destruct resp as [msg | code [[videos | s | result] | msg]];
    simpl in Hstep; try discriminate;
    try (injection Hstep as <-; simpl; repeat split; by eexists).
  unfold reply_failed. destruct (ok code); injection Hstep as <-; simpl.
  - repeat split; by rewrite <- app_assoc.
  - repeat split. by eexists.
Qed.

Lemma delete_answer_only_refreshes_witness :
  currentPlaylist
    (alert "Error deleting video: in use"
       (set_inflight []
          (deleteVideo "a.mp4" true
             (set_inflight [] (set_currentPlaylist [entryA] loaded)))))
  = [entryA]
  /\ alerts
       (alert "Error deleting video: in use"
          (set_inflight []
             (deleteVideo "a.mp4" true
                (set_inflight [] (set_currentPlaylist [entryA] loaded)))))
     = ["Error deleting video: in use"].
Proof.
  destruct (delete_answer_only_refreshes 0 "a.mp4" (errorBody 409 "in use")
              (deleteVideo "a.mp4" true
                 (set_inflight [] (set_currentPlaylist [entryA] loaded)))
              (alert "Error deleting video: in use"
                 (set_inflight []
                    (deleteVideo "a.mp4" true
                       (set_inflight [] (set_currentPlaylist [entryA] loaded))))))
    as (Hitems & _); [reflexivity | reflexivity |].
  split; [exact Hitems | reflexivity].
Defined.

(** X18: the answer to a playback command never changes the items, the
    playing index, the rows or the current-video line, and never
    re-renders.  When the command succeeds (success status, parseable
    body) one status poll is sent and the status line is left alone.
    When it fails (rejected fetch, non-success status or unparsable body)
    nothing is sent and the status line gets class status-error and the
    text "Error: " followed by the error's message: the message of the
    rejection or of the parse error, or, for a non-success status,
    "HTTP error! status: <code>, message: <reason>", the reason being the
    body's error field ("undefined" when absent) or "Unknown error" when
    the body does not parse. *)
Theorem playback_answer_touches_only_status (i : nat) (command : Command)
    (body : option string) (resp : Response) (st st' : State) :
  inflight st !! i = Some (PostPlayback command body) ->
  step (Deliver i resp) st = Some st' ->
  currentPlaylist st' = currentPlaylist st
  /\ currentlyPlayingIndex st' = currentlyPlayingIndex st
  /\ playlistElement st' = playlistElement st
  /\ currentVideoElement st' = currentVideoElement st
  /\ (if request_failed resp
      then sent st' = sent st
           /\ inflight st' = delete i (inflight st)
           /\ className (playbackStatusElement st') = "status-error"
      else sent st' = sent st ++ [GetStatus]
           /\ inflight st' = delete i (inflight st) ++ [GetStatus]
           /\ playbackStatusElement st' = playbackStatusElement st)
  /\ (forall msg,
        resp = NetworkError msg ->
        textContent (playbackStatusElement st') = "Error: " +:+ msg)
  /\ (forall code msg,
        resp = Http code (SyntaxError msg) ->
        textContent (playbackStatusElement st')
        = if ok code then "Error: " +:+ msg
          else "Error: HTTP error! status: " +:+ pretty code
                 +:+ ", message: Unknown error")
  /\ (forall code result,
        resp = Http code (Parsed (JResult result)) -> ok code = false ->
        textContent (playbackStatusElement st')
        = "Error: HTTP error! status: " +:+ pretty code
            +:+ ", message: " +:+ template (error result)).
Proof.
  intros Hreq Hstep. cbn [step] in Hstep. rewrite Hreq in Hstep.
  cbn [resume] in Hstep. unfold sendPlaybackCommand_resume in Hstep.
  destruct resp as [msg | code [[videos | s | result] | msg]];
    try destruct (ok code) eqn:Hok; try discriminate;
    injection Hstep as <-; simpl; rewrite ?Hok; simpl;
    (repeat split; try done);
    try (intros ? ? [= <- <-]; by rewrite ?Hok);
    try (intros ? [= <-]; done);
    try (intros ? ? [= <- <-] ?; congruence).
Qed.

Lemma playback_answer_touches_only_status_witness :
  exists st',
    step (Deliver 0 (errorBody 404 "Video not found"))
         (sendPlaybackCommand next None (set_inflight [] loaded)) = Some st'
    /\ playbackStatusElement st'
       = {| textContent := "Error: HTTP error! status: 404, message: Video not found";
            className := "status-error" |}
    /\ currentlyPlayingIndex st' = Some (-1)%Z
    /\ sent st' = [GetVideos; GetStatus; PostPlayback next None].
Proof.
  eexists. split; [reflexivity |].
  destruct (playback_answer_touches_only_status 0 next None
              (errorBody 404 "Video not found")
              (sendPlaybackCommand next None (set_inflight [] loaded)) _
              eq_refl eq_refl)
    as (_ & Hindex & _ & _ & (Hsent & _ & Hclass) & _ & _ & Htext).
  specialize (Htext 404 _ eq_refl eq_refl).
  split; [| split; [exact Hindex | exact Hsent]].
  destruct (playbackStatusElement _) as [text cls]. simpl in *.
  rewrite Htext, Hclass. vm_compute. reflexivity.
Defined.

(** ** Answers that arrive in either order *)

(** X19: the answers to a playlist fetch and to a status poll that are in
    flight together may arrive in either order: when the fetch succeeds,
    both orders lead to the same state, whatever the poll's answer. *)
Theorem fetch_and_poll_answers_commute (code : nat) (videos : list MediaEntry)
    (resp : Response) (rest : list Request) (st : State) :
  inflight st = GetVideos :: GetStatus :: rest ->
  ok code = true ->
  fetchPlaybackStatus_resume resp st <> None ->
  exists st',
    run [Deliver 0 (Http code (Parsed (JVideos videos))); Deliver 0 resp] st
      = Some st'
    /\ run [Deliver 1 resp; Deliver 0 (Http code (Parsed (JVideos videos)))] st
       = Some st'.
Proof.
  intros Hflight Hok Hcontract. destruct st. simpl in Hflight. subst.
  destruct resp as [msg | code2 [[videos2 | s | result] | msg]];
    simpl in Hcontract; simpl; rewrite ?Hok; simpl;
    try (destruct (ok code2); [| clear Hcontract]); try done;
    simpl; rewrite ?Hok; simpl;
    try (eexists; split; reflexivity).
  unfold fetchPlaybackStatus_success, status_written.
  destruct (isPlaying s), (currentVideo s) as [v |]; simpl; rewrite ?Hok; simpl;
    try (eexists; split; reflexivity).
  destruct (negb (String.eqb (name v) "Black Screen")); simpl; rewrite ?Hok;
    eexists; split; reflexivity.
Qed.

Lemma fetch_and_poll_answers_commute_witness :
  exists st',
    run [Deliver 0 (okVideos [entryA; entryB]);
         Deliver 0 (okStatus true (Some entryB) (Some 1%Z))] loaded = Some st'
    /\ run [Deliver 1 (okStatus true (Some entryB) (Some 1%Z));
            Deliver 0 (okVideos [entryA; entryB])] loaded = Some st'.
Proof.
  apply (fetch_and_poll_answers_commute 200 [entryA; entryB]
           (okStatus true (Some entryB) (Some 1%Z)) [] loaded);
    [reflexivity | reflexivity | discriminate].
Defined.

(** X20: a status that reports playing overrides whatever an earlier poll
    left behind: applied after any other status, or after a failed poll,
    it gives the same state as applied alone. *)
Theorem playing_status_overrides (s1 s2 : PlaybackStatus) (st : State) :
  isPlaying s2 = true ->
  fetchPlaybackStatus_success s2 (fetchPlaybackStatus_success s1 st)
    = fetchPlaybackStatus_success s2 st
  /\ fetchPlaybackStatus_success s2 (fetchPlaybackStatus_failure st)
     = fetchPlaybackStatus_success s2 st.
Proof.
  intros Hplaying. destruct st.
  unfold fetchPlaybackStatus_success, fetchPlaybackStatus_failure, status_written.
  rewrite Hplaying. split.
  - destruct (isPlaying s1), (currentVideo s1) as [v1 |],
      (currentVideo s2) as [v2 |]; cbn; try reflexivity;
      destruct (negb (String.eqb (name v1) "Black Screen")); reflexivity.
  - destruct (currentVideo s2) as [v2 |]; reflexivity.
Qed.

Lemma playing_status_overrides_witness :
  fetchPlaybackStatus_success
    {| isPlaying := true; currentVideo := Some entryA; currentIndex := Some 0%Z |}
    (fetchPlaybackStatus_success
       {| isPlaying := false; currentVideo := Some blackScreen;
          currentIndex := None |} loaded)
  = fetchPlaybackStatus_success
      {| isPlaying := true; currentVideo := Some entryA; currentIndex := Some 0%Z |}
      loaded.
Proof.
  apply (playing_status_overrides
           {| isPlaying := false; currentVideo := Some blackScreen;
              currentIndex := None |}
           {| isPlaying := true; currentVideo := Some entryA;
              currentIndex := Some 0%Z |} loaded).
  reflexivity.
Defined.

(** ** Several requests of one kind in flight *)


(** X22: answers are applied in the order of their arrival, not of their
    requests: with two playlist fetches in flight, the items end up as the
    list that arrives last, also when that is the answer to the older
    request; likewise the playing index after two polls that report
    playing is the one that arrives last. *)
Theorem last_arrival_wins (st : State) (rest : list Request) :
  (forall older newer code1 code2,
     inflight st = GetVideos :: GetVideos :: rest ->
     ok code1 = true -> ok code2 = true ->
     exists st',
       run [Deliver 1 (Http code2 (Parsed (JVideos newer)));
            Deliver 0 (Http code1 (Parsed (JVideos older)))] st = Some st'
       /\ currentPlaylist st' = older
       /\ map dataset_filename (playlistElement st') = rendered_names older)
  /\ (forall older newer video1 video2 code1 code2,
        inflight st = GetStatus :: GetStatus :: rest ->
        ok code1 = true -> ok code2 = true ->
        isPlaying older = true -> currentVideo older = Some video1 ->
        isPlaying newer = true -> currentVideo newer = Some video2 ->
        exists st',
          run [Deliver 1 (Http code2 (Parsed (JStatus newer)));
               Deliver 0 (Http code1 (Parsed (JStatus older)))] st = Some st'
          /\ currentlyPlayingIndex st' = currentIndex older
          /\ textContent (currentVideoElement st')
             = "Current Video: " +:+ name video1).
Proof.
  split.
  - intros older newer code1 code2 Hflight Hok1 Hok2.
    destruct st. simpl in Hflight. subst.
    eexists. split.
    { simpl. rewrite Hok2. simpl. rewrite Hok1. reflexivity. }
    split; [done |]. by rewrite rendered_names_spec.
  - intros older newer video1 video2 code1 code2 Hflight Hok1 Hok2
      Hp1 Hv1 Hp2 Hv2.
    destruct st. simpl in Hflight. subst.
    eexists. split.
    { simpl. rewrite Hok2. unfold fetchPlaybackStatus_success, status_written.
      rewrite Hp2, Hv2. simpl. rewrite Hok1. reflexivity. }
    unfold fetchPlaybackStatus_success.
    rewrite renderPlaylist_currentlyPlayingIndex, status_written_index, Hp1, Hv1.
    split; [done |].
    unfold status_written at 1. rewrite Hp1, Hv1. reflexivity.
Qed.

Lemma last_arrival_wins_witness :
  exists st',
    run [Deliver 1 (okVideos [entryA; entryB; entryD]);
         Deliver 0 (okVideos [entryA; entryB])]
        (fetchPlaylist (fetchPlaylist (set_inflight [] loaded))) = Some st'
    /\ currentPlaylist st' = [entryA; entryB]
    /\ map dataset_filename (playlistElement st')
       = rendered_names [entryA; entryB].
Proof.
  destruct (last_arrival_wins (fetchPlaylist (fetchPlaylist (set_inflight [] loaded))) [])
    as [Hfetch _].
  apply (Hfetch [entryA; entryB] [entryA; entryB; entryD] 200 200); reflexivity.
Defined.

(** ** The substring test of the highlight *)

Lemma prefix_append (a b : string) :
  String.prefix a b = true <-> exists post, b = a +:+ post.
Proof.
  revert b. induction a as [| c a IH]; intros b.
  - split; [intros _; by exists b | intros _; by destruct b].
  - destruct b as [| d b]; simpl.
    + split; [discriminate | intros [post [=]]].
    + destruct (Ascii.ascii_dec c d) as [-> | Hne].
      * rewrite IH. split.
        -- intros [post ->]. by exists post.
        -- intros [post [= ->]]. by exists post.
      * split; [discriminate | intros [post [= Heq _]]; congruence].
Qed.

Lemma includes_unfold (needle hay : string) :
  includes needle hay
  = String.prefix needle hay
    || match hay with
       | EmptyString => false
       | String _ rest => includes needle rest
       end.
Proof. by destruct hay. Qed.

(** X23: the test that decides the highlight, [includes needle hay], holds
    exactly when [needle] occurs in [hay] as a contiguous piece. *)
Theorem includes_iff_substring (needle hay : string) :
  includes needle hay = true
  <-> exists pre post, hay = pre +:+ needle +:+ post.
Proof.
  split.
  - induction hay as [| c hay IH]; rewrite includes_unfold, orb_true_iff.
    + intros [Hprefix | [=]]. apply prefix_append in Hprefix as [post ->].
      by exists EmptyString, post.
    + intros [Hprefix | Hrest].
      * apply prefix_append in Hprefix as [post ->]. by exists EmptyString, post.
      * destruct (IH Hrest) as (pre & post & ->). by exists (String c pre), post.
  - intros (pre & post & ->). induction pre as [| c pre IH].
    + rewrite includes_unfold, orb_true_iff. left.
      apply prefix_append. by exists post.
    + change (String c pre +:+ needle +:+ post)
        with (String c (pre +:+ needle +:+ post)).
      rewrite includes_unfold, IH. apply orb_true_r.
Qed.
